(** * pyaegis / aegis Python bindings: buffer utilities, aligned allocation
      and library loading

    Shallow embedding of
      - [src/pyaegis/util.py]    ([nonce_increment], [wipe],
                                  [aligned_address], [new_aligned_struct]),
      - [src/aegis/_loader.py]   ([_candidate_paths], [_load_libaegis],
                                  [_load_libc], module body, [alloc_aligned]),
      - [src/pyaegis/_loader.py] (same names, bundled-library variant).

    Python integers are [Z]; bytes are [Byte.byte]; byte buffers are lists
    indexed with stdpp's lookup and insert, with Python's bounds and value
    checks written out.  Raising an exception is the [Raise] branch of
    [result]. *)

From Stdlib Require Import ZArith NArith Lia.
From Stdlib.Strings Require Import Byte.
From stdpp Require Import base list strings gmap.

Local Open Scope Z_scope.

(** ** Exceptions and results *)

(** The exception classes the modelled code raises or meets.  All of them
    derive from Python's [Exception]. *)
Inductive exn : Type :=
| ValueError
| MemoryError
| OSError
| IndexError
| TypeError
| OverflowError
| AttributeError
| CDefError            (* cffi.CDefError: a string that is not a C type *)
| PermissionError.     (* a subclass of OSError *)

Inductive result (A : Type) : Type :=
| Ok (a : A)
| Raise (e : exn).

Arguments Ok {A} a.
Arguments Raise {A} e.

Definition rbind {A B : Type} (m : result A) (k : A -> result B) : result B :=
  match m with
  | Ok a => k a
  | Raise e => Raise e
  end.

Notation "'let/r' x ':=' m 'in' k" := (rbind m (fun x => k))
  (at level 10, x name, m at level 100, k at level 200, only parsing).

(** ** Bytes and byte buffers *)

Definition byte_to_Z (b : byte) : Z := Z.of_N (Byte.to_N b).

(** Packing a Python integer into an unsigned byte cell (format 'B'):
    defined exactly on 0..255. *)
Definition byte_of_Z (v : Z) : option byte :=
  if (0 <=? v) && (v <? 256) then Byte.of_N (Z.to_N v) else None.

(** An object exporting the buffer protocol with byte items: its storage and
    whether the export is read-only ([bytes]) or writable ([bytearray]). *)
Record Buffer : Type := MkBuffer {
  contents : list byte;
  readonly : bool
}.

Definition bytearray (l : list byte) : Buffer :=
  {| contents := l; readonly := false |}.

Definition bytes (l : list byte) : Buffer :=
  {| contents := l; readonly := true |}.

(** [memoryview(obj)] is a view on the storage of [obj]: reads and writes
    through the view are reads and writes of [obj]. *)
Definition memoryview (obj : Buffer) : Buffer := obj.

Definition len (n : Buffer) : nat := length (contents n).

(** [n[i]] for [0 <= i]: IndexError out of range. *)
Definition getitem (n : Buffer) (i : nat) : result Z :=
  match contents n !! i with
  | Some b => Ok (byte_to_Z b)
  | None => Raise IndexError
  end.

(** [n[i] = v]: TypeError on read-only memory, IndexError out of range,
    ValueError when [v] does not fit a byte; checked in that order. *)
Definition setitem (n : Buffer) (i : nat) (v : Z) : result Buffer :=
  if readonly n then Raise TypeError
  else if decide (i < len n)%nat then
    match byte_of_Z v with
    | Some b => Ok {| contents := <[i := b]> (contents n); readonly := readonly n |}
    | None => Raise ValueError
    end
  else Raise IndexError.

(** Little-endian reading of a byte string as an unsigned integer. *)
Fixpoint le_value (l : list byte) : Z :=
  match l with
  | [] => 0
  | b :: t => byte_to_Z b + 256 * le_value t
  end.

(** ** util.py: nonce_increment and wipe *)

(** Body of [for i in range(len(n))] in [nonce_increment], over the indices
    still to visit. *)
Fixpoint nonce_increment_loop (idx : list nat) (n : Buffer) : result Buffer :=
  match idx with
  | [] => Ok n
  | i :: rest =>
      let/r x := getitem n i in
      if x <? 255 then
        let/r y := getitem n i in
        setitem n i (y + 1)
      else
        let/r n' := setitem n i 0 in
        nonce_increment_loop rest n'
  end.

(** The function returns [None]; its effect is the new state of the buffer. *)
Definition nonce_increment (nonce : Buffer) : result Buffer :=
  let n := memoryview nonce in
  nonce_increment_loop (seq 0 (len n)) n.

Fixpoint wipe_loop (idx : list nat) (n : Buffer) : result Buffer :=
  match idx with
  | [] => Ok n
  | i :: rest =>
      let/r n' := setitem n i 0 in
      wipe_loop rest n'
  end.

Definition wipe (buffer : Buffer) : result Buffer :=
  let n := memoryview buffer in
  wipe_loop (seq 0 (len n)) n.

(** ** The world outside the interpreter

    Calls that leave Python (allocation through cffi, [dlopen], libaegis and
    libc functions) are recorded in a trace, so that "called once", "not
    retried" and "before any allocation" are statements about the trace. *)

Inductive event : Type :=
| FfiNew (n : Z)                        (* ffi.new("unsigned char[]", n) reaches the allocator *)
| Dlopen (name : option string)         (* ffi.dlopen(name); None is dlopen(None) *)
| AegisInit                             (* lib.aegis_init() *)
| PosixMemalign (alignment size : Z).   (* libc.posix_memalign(memptr, alignment, size) *)

Definition trace : Type := list event.

Definition is_FfiNew (e : event) : bool :=
  match e with FfiNew _ => true | _ => false end.
Definition is_AegisInit (e : event) : bool :=
  match e with AegisInit => true | _ => false end.
Definition is_PosixMemalign (e : event) : bool :=
  match e with PosixMemalign _ _ => true | _ => false end.

Definition count (p : event -> bool) (t : trace) : nat :=
  length (List.filter p t).

(** What the process environment, the file system and the foreign libraries
    answer.  The code under study does not control any of it. *)
Record environ : Type := MkEnviron {
  getenv : string -> option string;            (* os.environ.get(name) *)
  path_exists : string -> bool;                (* os.path.exists(p); never raises *)
  pathlib_exists : string -> result bool;      (* Path(p).exists(); raises the OSErrors
                                                  it does not ignore *)
  sys_platform : string;                       (* sys.platform *)
  os_name : string;                            (* os.name *)
  repo_root : result string;                   (* Path(__file__).resolve().parents[2],
                                                  or what computing it raises *)
  pkg_dir : string;                            (* os.path.dirname(__file__) *)
  pathlib_join : string -> string -> string;   (* str(Path(a) / b) *)
  os_path_join : string -> string -> string;   (* os.path.join(a, b) *)
  cdef_outcome : option exn;                   (* reading and declaring build/aegis_cdef.h *)
  ctypes_util : bool;                          (* import ctypes.util succeeded *)
  find_library : string -> option string;      (* ctypes.util.find_library(name) *)
  dlopen_outcome : option string -> option exn;  (* None: the library loads *)
  aegis_init_outcome : result Z;               (* int aegis_init(void), or the call raising *)
  posix_memalign_outcome : Z -> Z -> Z * option Z;
                                               (* status, and the pointer stored in *memptr if any *)
  ffi_sizeof : string -> result N;             (* ffi.sizeof(ctype), or what it raises *)
  ffi_pointer_ok : string -> bool;             (* the string "<ctype> *" is a C type *)
  heap_alloc : Z -> option Z                   (* address of a fresh block of n bytes *)
}.

(** Computations with exceptions and a trace.  The trace survives a raise. *)
Definition M (A : Type) : Type := trace -> result A * trace.

Definition ret {A : Type} (a : A) : M A := fun t => (Ok a, t).
Definition raise {A : Type} (e : exn) : M A := fun t => (Raise e, t).
Definition lift {A : Type} (r : result A) : M A := fun t => (r, t).
Definition emit (ev : event) : M unit := fun t => (Ok tt, t ++ [ev]).

Definition bind {A B : Type} (m : M A) (k : A -> M B) : M B :=
  fun t =>
    match m t with
    | (Ok a, t') => k a t'
    | (Raise e, t') => (Raise e, t')
    end.

(** [try: m  except Exception as e: h e] *)
Definition try_except {A : Type} (m : M A) (h : exn -> M A) : M A :=
  fun t =>
    match m t with
    | (Ok a, t') => (Ok a, t')
    | (Raise e, t') => h e t'
    end.

Notation "'let/m' x ':=' m 'in' k" := (bind m (fun x => k))
  (at level 10, x name, m at level 100, k at level 200, only parsing).
Notation "m1 ';;' m2" := (bind m1 (fun _ => m2))
  (at level 100, m2 at level 200, right associativity, only parsing).

(** Truth value of [os.environ.get(..)] / [find_library(..)] in an [if]:
    [None] and the empty string are false. *)
Definition truthy (o : option string) : option string :=
  match o with
  | Some s => if decide (s = "") then None else Some s
  | None => None
  end.

(** ** cffi objects *)

Inductive cdata : Type :=
| CArray (item : string) (addr : Z) (length : Z)   (* owning array, ffi.new("T[]", n) *)
| CPointer (totype : string) (addr : Z).           (* non-owning T * *)

Definition cd_addr (c : cdata) : Z :=
  match c with
  | CArray _ a _ => a
  | CPointer _ a => a
  end.

Definition NULL : Z := 0.

(** Integer conversions done by cffi at the C boundary. *)
Definition uintptr_t (z : Z) : Z := z mod 2 ^ 64.
Definition fits_size_t (z : Z) : bool := (0 <=? z) && (z <? 2 ^ 64).
Definition ssize_max : Z := 2 ^ 63 - 1.

(** ** util.py: aligned_address and new_aligned_struct *)

Section Util.
Variable env : environ.

(** [ffi.sizeof(ctype)] *)
Definition ffi_sizeof_ (ctype : string) : M Z :=
  match ffi_sizeof env ctype with
  | Ok s => ret (Z.of_N s)
  | Raise e => raise e
  end.

(** [ffi.new("unsigned char[]", n)]: cffi refuses a negative length and a
    byte size beyond Py_ssize_t, then asks the allocator. *)
Definition ffi_new_uchar_array (n : Z) : M cdata :=
  if n <? 0 then raise ValueError
  else if ssize_max <? n then raise OverflowError
  else
    emit (FfiNew n) ;;
    match heap_alloc env n with
    | Some a => ret (CArray "unsigned char" a n)
    | None => raise MemoryError
    end.

(** [ffi.addressof(obj, index)] on an array of one-byte items: pointer
    arithmetic, no bounds check. *)
Definition ffi_addressof (obj : cdata) (index : Z) : cdata :=
  CPointer "unsigned char" (cd_addr obj + index).

(** [ffi.cast(f"{ctype} *", p)]: the type string is parsed first, and a
    string that is not a type (an array type followed by [*], say) is a
    CDefError. *)
Definition ffi_cast_ptr (ctype : string) (p : cdata) : M cdata :=
  if ffi_pointer_ok env ctype then ret (CPointer ctype (cd_addr p))
  else raise CDefError.

Definition aligned_address (obj : cdata) : Z :=
  uintptr_t (cd_addr (ffi_addressof obj 0)).

Definition new_aligned_struct (ctype : string) (alignment : Z) : M (cdata * cdata) :=
  if negb (Z.land alignment (alignment - 1) =? 0) then raise ValueError
  else
    let/m size := ffi_sizeof_ ctype in
    let/m base := ffi_new_uchar_array (size + alignment - 1) in
    let addr := aligned_address base in
    let offset := Z.land (- addr) (alignment - 1) in
    let aligned_uc := ffi_addressof base offset in
    let/m ptr := ffi_cast_ptr ctype aligned_uc in
    ret (ptr, base).
End Util.

(** ** Code shared verbatim by aegis/_loader.py and pyaegis/_loader.py *)

(** Handle returned by [ffi.dlopen]: the name it was opened under. *)
Record libhandle : Type := LibHandle { lib_name : option string }.

(** The module namespace after import. *)
Record loader_module : Type := MkModule { lib : libhandle; libc : libhandle }.

Section Loader.
Variable env : environ.

Definition ffi_dlopen (name : option string) : M libhandle :=
  emit (Dlopen name) ;;
  match dlopen_outcome env name with
  | None => ret (LibHandle name)
  | Some e => raise e
  end.

Definition _load_libc : M libhandle :=
  let fallback :=
    try_except (ffi_dlopen None) (fun e => raise OSError) in
  if ctypes_util env then
    match truthy (find_library env "c") with
    | Some libc_name =>
        try_except (ffi_dlopen (Some libc_name)) (fun _ => fallback)
    | None => fallback
    end
  else fallback.

(** [lib.aegis_init()] *)
Definition aegis_init : M Z :=
  emit AegisInit ;; lift (aegis_init_outcome env).

(** The [try: lib.aegis_init()  except Exception: pass] statement. *)
Definition init_cpu_features : M unit :=
  try_except (aegis_init ;; ret tt) (fun _ => ret tt).

(** Module body from [lib = _load_libaegis()] on, given the file's own
    [_load_libaegis]. *)
Definition load_and_init (_load_libaegis : M libhandle) : M loader_module :=
  let/m lib := _load_libaegis in
  let/m libc := _load_libc in
  init_cpu_features ;;
  ret {| lib := lib; libc := libc |}.

(** [memptr = ffi.new("void **")] is a pointer cell initialised to NULL;
    [posix_memalign] may store into it.  cffi converts both integer
    arguments to [size_t] before the call. *)
Definition alloc_aligned (size : Z) (alignment : Z) : M cdata :=
  let memptr_0 := NULL in
  if negb (fits_size_t alignment && fits_size_t size) then raise OverflowError
  else
    emit (PosixMemalign alignment size) ;;
    let '(rc, stored) := posix_memalign_outcome env alignment size in
    let memptr_0 := match stored with Some p => p | None => memptr_0 end in
    if negb (rc =? 0) || (memptr_0 =? NULL) then raise MemoryError
    else ret (CPointer "void" memptr_0).

(** The default [alignment=64]. *)
Definition alloc_aligned_default (size : Z) : M cdata := alloc_aligned size 64.
End Loader.

(** ** Generators

    What a generator does when it is iterated to the end: a finite run of
    yields closed by its return or by an exception raised in its body.  The
    exception comes out of the [next] call, that is, at the [for] statement
    that iterates it. *)

Inductive gen (A : Type) : Type :=
| GStop
| GRaise (e : exn)
| GYield (a : A) (rest : gen A).

Arguments GStop {A}.
Arguments GRaise {A} e.
Arguments GYield {A} a rest.

(** [if o: yield o] *)
Definition yield_if {A : Type} (o : option A) (rest : gen A) : gen A :=
  match o with
  | Some a => GYield a rest
  | None => rest
  end.

(** ** aegis/_loader.py *)

Module Aegis.
Section WithEnv.
Variable env : environ.

Definition _platform_lib_name : string :=
  if String.prefix "linux" (sys_platform env) then "libaegis.so"
  else if decide (sys_platform env = "darwin") then "libaegis.dylib"
  else if decide (os_name env = "nt") then "aegis.dll"
  else "libaegis.so".

Definition local_builds : list string :=
  [ "build-shared-clang/libaegis.so";
    "build-shared/libaegis.so";
    "build/libaegis.so";
    "zig-out/lib/libaegis.so" ].

(** The [for rel in (...)] loop of the generator: [path.exists()] is
    evaluated when the generator is resumed, and what it raises ends the
    generator. *)
Fixpoint local_paths (root : string) (rels : list string) (rest : gen string)
  : gen string :=
  match rels with
  | [] => rest
  | rel :: rels' =>
      let path := pathlib_join env root rel in
      match pathlib_exists env path with
      | Raise e => GRaise e
      | Ok true => GYield path (local_paths root rels' rest)
      | Ok false => local_paths root rels' rest
      end
  end.

(** The generator.  [here.parents[2]] is computed after the two overrides
    have been yielded, so what it raises comes after them.  Nothing
    [_load_libaegis] does between two yields changes the environment
    variables or the file system. *)
Definition _candidate_paths : gen string :=
  yield_if (truthy (getenv env "AEGIS_LIB_PATH"))
    (yield_if (match truthy (getenv env "AEGIS_LIB_DIR") with
               | Some d => Some (pathlib_join env d _platform_lib_name)
               | None => None
               end)
       (match repo_root env with
        | Raise e => GRaise e
        | Ok root => local_paths root local_builds (GYield _platform_lib_name GStop)
        end)).

(** The [for cand in _candidate_paths()] loop.  The [try] is inside the
    loop body: it covers [ffi.dlopen], not the generator. *)
Fixpoint load_loop (cands : gen string) (last_err : option exn) : M libhandle :=
  match cands with
  | GStop => raise OSError
  | GRaise e => raise e
  | GYield cand rest =>
      try_except (ffi_dlopen env (Some cand))
                 (fun e => load_loop rest (Some e))
  end.

Definition _load_libaegis : M libhandle := load_loop _candidate_paths None.

(** Module body; the [ffi.cdef] of the inline declarations comes first and
    touches nothing outside. *)
Definition module_body : M loader_module := load_and_init env _load_libaegis.
End WithEnv.
End Aegis.

(** ** pyaegis/_loader.py *)

Module Pyaegis.
Section WithEnv.
Variable env : environ.

Definition _platform_lib_name : string :=
  if decide (sys_platform env = "darwin") then "libaegis.dylib"
  else if decide (os_name env = "nt") then "aegis.dll"
  else "libaegis.so".

(** [os.path.join(pkg_dir, "build", name)] is the join of the first two
    components joined with the third. *)
Definition _load_libaegis : M libhandle :=
  let candidate :=
    os_path_join env (os_path_join env (pkg_dir env) "build") _platform_lib_name in
  if path_exists env candidate then
    try_except (ffi_dlopen env (Some candidate)) (fun e => raise OSError)
  else raise OSError.

(** Reading [build/aegis_cdef.h] and [ffi.cdef] of its text. *)
Definition load_cdef : M unit :=
  match cdef_outcome env with
  | None => ret tt
  | Some e => raise e
  end.

Definition module_body : M loader_module :=
  load_cdef ;; load_and_init env _load_libaegis.
End WithEnv.
End Pyaegis.

(** ** Sample worlds

    A Linux host with a checkout under [/repo], the package under [/pkg],
    [AEGIS_LIB_DIR] pointing at a directory without the library, and a
    working libc.  Used to run the definitions on concrete inputs. *)

Definition slash_join (a b : string) : string := a +:+ "/" +:+ b.

(** A Linux host from its environment variables, its files and the
    libraries that load. *)
Definition world (vars : string -> option string) (files loadable : string -> bool)
  : environ := {|
  getenv := vars;
  path_exists := files;
  pathlib_exists := fun p => Ok (files p);
  sys_platform := "linux";
  os_name := "posix";
  repo_root := Ok "/repo";
  pkg_dir := "/pkg";
  pathlib_join := slash_join;
  os_path_join := slash_join;
  cdef_outcome := None;
  ctypes_util := true;
  find_library := fun name => if decide (name = "c") then Some "libc.so.6" else None;
  dlopen_outcome := fun name =>
    match name with
    | None => None
    | Some p => if loadable p then None else Some OSError
    end;
  aegis_init_outcome := Ok 0;
  posix_memalign_outcome := fun alignment size => (0, Some 93824992236608);
  ffi_sizeof := fun ctype =>
    if decide (ctype = "aegis128l_state") then Ok 256%N
    else if decide (ctype = "uint8_t[16]") then Ok 16%N
    else Raise CDefError;
  ffi_pointer_ok := fun ctype => bool_decide (ctype = "aegis128l_state");
  heap_alloc := fun n => Some 93824992231443
|}.

Definition sample_env : environ :=
  world
    (fun name => if decide (name = "AEGIS_LIB_DIR") then Some "/opt/aegis" else None)
    (fun p => bool_decide (p = "/repo/build/libaegis.so")
              || bool_decide (p = "/repo/zig-out/lib/libaegis.so")
              || bool_decide (p = "/pkg/build/libaegis.so"))
    (fun p => bool_decide (p = "/repo/zig-out/lib/libaegis.so")
              || bool_decide (p = "/pkg/build/libaegis.so")
              || bool_decide (p = "libc.so.6")).


(** [AEGIS_LIB_PATH] names a library that loads; the package carries no
    bundled library. *)
Definition unbundled_env : environ :=
  world
    (fun name =>
       if decide (name = "AEGIS_LIB_PATH") then Some "/opt/lib/libaegis.so" else None)
    (fun p => bool_decide (p = "/opt/lib/libaegis.so"))
    (fun p => bool_decide (p = "/opt/lib/libaegis.so")
              || bool_decide (p = "libc.so.6")).

(** The same world with another outcome of [aegis_init]. *)
Definition with_aegis_init (o : result Z) (e : environ) : environ := {|
  getenv := getenv e;
  path_exists := path_exists e;
  pathlib_exists := pathlib_exists e;
  sys_platform := sys_platform e;
  os_name := os_name e;
  repo_root := repo_root e;
  pkg_dir := pkg_dir e;
  pathlib_join := pathlib_join e;
  os_path_join := os_path_join e;
  cdef_outcome := cdef_outcome e;
  ctypes_util := ctypes_util e;
  find_library := find_library e;
  dlopen_outcome := dlopen_outcome e;
  aegis_init_outcome := o;
  posix_memalign_outcome := posix_memalign_outcome e;
  ffi_sizeof := ffi_sizeof e;
  ffi_pointer_ok := ffi_pointer_ok e;
  heap_alloc := heap_alloc e
|}.

(** The same world with the package installed where [here.parents[2]]
    gives [r]. *)
Definition with_repo_root (r : result string) (e : environ) : environ := {|
  getenv := getenv e;
  path_exists := path_exists e;
  pathlib_exists := pathlib_exists e;
  sys_platform := sys_platform e;
  os_name := os_name e;
  repo_root := r;
  pkg_dir := pkg_dir e;
  pathlib_join := pathlib_join e;
  os_path_join := os_path_join e;
  cdef_outcome := cdef_outcome e;
  ctypes_util := ctypes_util e;
  find_library := find_library e;
  dlopen_outcome := dlopen_outcome e;
  aegis_init_outcome := aegis_init_outcome e;
  posix_memalign_outcome := posix_memalign_outcome e;
  ffi_sizeof := ffi_sizeof e;
  ffi_pointer_ok := ffi_pointer_ok e;
  heap_alloc := heap_alloc e
|}.

(** No override, no local build, libaegis installed system-wide, and the
    module file so close to the file system root that [here.parents[2]]
    raises IndexError. *)
Definition shallow_env : environ :=
  with_repo_root (Raise IndexError)
    (world (fun _ => None) (fun _ => false)
           (fun p => bool_decide (p = "libaegis.so") || bool_decide (p = "libc.so.6"))).

(** A local build exists but does not load, the next local build lies in a
    directory [path.exists()] may not search, and libaegis is installed
    system-wide. *)
Definition denied_env : environ := {|
  getenv := fun _ => None;
  path_exists := fun _ => false;
  pathlib_exists := fun p =>
    if decide (p = "/repo/build-shared/libaegis.so") then Ok true
    else if decide (p = "/repo/build/libaegis.so") then Raise PermissionError
    else Ok false;
  sys_platform := "linux";
  os_name := "posix";
  repo_root := Ok "/repo";
  pkg_dir := "/pkg";
  pathlib_join := slash_join;
  os_path_join := slash_join;
  cdef_outcome := None;
  ctypes_util := true;
  find_library := fun name => if decide (name = "c") then Some "libc.so.6" else None;
  dlopen_outcome := fun name =>
    match name with
    | None => None
    | Some p =>
        if decide (p = "libaegis.so") then None
        else if decide (p = "libc.so.6") then None
        else Some OSError
    end;
  aegis_init_outcome := Ok 0;
  posix_memalign_outcome := fun alignment size => (0, Some 93824992236608);
  ffi_sizeof := fun _ => Raise CDefError;
  ffi_pointer_ok := fun _ => false;
  heap_alloc := fun n => Some 93824992231443
|}.

(** ** Vocabulary of the statements *)

(** The byte after [b], for [b] below 0xFF. *)
Definition byte_succ (b : byte) : byte :=
  match byte_of_Z (byte_to_Z b + 1) with
  | Some c => c
  | None => x00
  end.

(** Adding one to a little-endian number, as a function on byte lists: the
    carry runs through the leading 0xFF bytes. *)
Fixpoint le_successor (l : list byte) : list byte :=
  match l with
  | [] => []
  | b :: t => if byte_to_Z b <? 255 then byte_succ b :: t else x00 :: le_successor t
  end.

Definition is_pow2 (a : Z) : Prop := exists k, 0 <= k /\ a = 2 ^ k.

Definition dl (c : string) : event := Dlopen (Some c).

(** [c] is a name [ffi.dlopen] loads. *)
Definition loads (env : environ) (c : string) : bool :=
  match dlopen_outcome env (Some c) with
  | None => true
  | Some _ => false
  end.

(** The candidates [dlopen] is called on: up to and including the first one
    that loads. *)
Fixpoint attempts (env : environ) (cands : list string) : list string :=
  match cands with
  | [] => []
  | c :: rest => if loads env c then [c] else c :: attempts env rest
  end.

(** A computation whose only events are dlopen calls. *)
Definition dlopen_only {A : Type} (m : M A) : Prop :=
  forall t, exists names, snd (m t) = t ++ List.map Dlopen names.

(** The values a generator yields before it ends. *)
Fixpoint gen_yields {A : Type} (g : gen A) : list A :=
  match g with
  | GStop => []
  | GRaise _ => []
  | GYield a rest => a :: gen_yields rest
  end.

(** How it ends: [None] for a return, [Some e] for a raise. *)
Fixpoint gen_end {A : Type} (g : gen A) : option exn :=
  match g with
  | GStop => None
  | GRaise e => Some e
  | GYield _ rest => gen_end rest
  end.

(** [Path(p).exists()] returns True. *)
Definition exists_true (env : environ) (p : string) : bool :=
  match pathlib_exists env p with
  | Ok true => true
  | _ => false
  end.

(** The candidates that come from the two environment variables: each one
    counts when it is set to a non-empty string. *)
Definition override_candidates (env : environ) : list string :=
  (match getenv env "AEGIS_LIB_PATH" with
   | Some p => if decide (p = "") then [] else [p]
   | None => []
   end)
  ++ (match getenv env "AEGIS_LIB_DIR" with
      | Some d =>
          if decide (d = "") then []
          else [pathlib_join env d (Aegis._platform_lib_name env)]
      | None => []
      end).

(** What [_load_libaegis] of aegis/_loader.py raises when no yielded
    candidate loaded: the exception that ended the generator, or its own
    OSError when the generator returned. *)
Definition load_failure {A : Type} (g : gen A) : exn :=
  match gen_end g with
  | Some e => e
  | None => OSError
  end.



(** ** Vocabulary of the further properties *)

(** The nonce after [k] consecutive messages: [nonce_increment] called [k]
    times on the same buffer. *)
Fixpoint nonce_increment_times (k : nat) (b : Buffer) : result Buffer :=
  match k with
  | O => Ok b
  | S k' =>
      let/r b' := nonce_increment b in
      nonce_increment_times k' b'
  end.




(** ** examples/aegis256x4_demo.py: hx *)

(** One hexadecimal digit of [bytes.hex()], lower case. *)
Definition hex_digit (n : N) : string :=
  match n with
  | 0%N => "0" | 1%N => "1" | 2%N => "2" | 3%N => "3"
  | 4%N => "4" | 5%N => "5" | 6%N => "6" | 7%N => "7"
  | 8%N => "8" | 9%N => "9" | 10%N => "a" | 11%N => "b"
  | 12%N => "c" | 13%N => "d" | 14%N => "e" | _ => "f"
  end.

(** [data.hex()]: two digits per byte, high nibble first. *)
Fixpoint bytes_hex (data : list byte) : string :=
  match data with
  | [] => ""
  | b :: rest =>
      hex_digit (Byte.to_N b / 16) +:+ hex_digit (Byte.to_N b mod 16) +:+ bytes_hex rest
  end.

(** [data[:stop]] for an integer [stop]: a negative [stop] counts from the
    end, and both ends are clipped to the sequence. *)
Definition slice_to (data : list byte) (stop : Z) : list byte :=
  if stop <? 0 then take (Z.to_nat (Z.of_nat (length data) + stop)) data
  else take (Z.to_nat stop) data.

(** [bytes(b)] copies the contents of the buffer. *)
Definition hx (b : Buffer) (limit : option Z) : string :=
  let data := contents b in
  let data :=
    match limit with
    | Some k => slice_to data k
    | None => data
    end in
  bytes_hex data.

(** ** tools/build_hook.py: BuildHook.initialize *)

Inductive hook_exn : Type :=
| RuntimeError
| FileExistsError      (* symlink_to on a path that is taken *)
| OtherOSError         (* an OSError from mkdir, read_text, write_text, iterdir,
                          exec, or symlink_to for another reason *)
| ItemTypeError.       (* TypeError: object does not support item assignment *)

Inductive hresult (A : Type) : Type :=
| Done (a : A)
| Fail (e : hook_exn).

Arguments Done {A} a.
Arguments Fail {A} e.

(** Values of the [build_data] dict: a dict of strings, or anything else. *)
Inductive pyval : Type :=
| PyDict (d : gmap string string)
| PyOther.

Inductive zig_outcome : Type :=
| ZigOk                (* exit status 0 *)
| ZigNonZero           (* CalledProcessError *)
| ZigNotStarted.       (* OSError from starting the process *)

Inductive hook_event : Type :=
| DisplayInfo (msg : string)
| RunZig (cwd : string).

(** What the build host answers. *)
Record hook_env : Type := MkHookEnv {
  target_name : string;                   (* self.target_name *)
  which_zig : bool;                       (* shutil.which("zig") found it *)
  hook_root : string;                     (* self.root *)
  hook_cwd : string;                      (* Path.cwd() *)
  pjoin : string -> string -> string;     (* str(Path(a) / b) *)
  present : string -> bool;               (* paths on disk before the hook ever ran *)
  build_zig_text : option string;         (* read_text of libaegis/build.zig; None: OSError *)
  str_replace : string -> string -> string -> string;   (* s.replace(old, new) *)
  mkdir_ok : bool;                        (* mkdir(exist_ok=True) succeeds *)
  write_ok : bool;                        (* write_text succeeds *)
  symlink_ok : bool;                      (* symlink_to succeeds on a free path *)
  zig_build : zig_outcome;                (* zig build -Drelease *)
  lib_listing : option (list string);     (* names yielded by lib_dir.iterdir(); None: OSError *)
  lib_exists : string -> bool             (* dynamic_lib.exists() *)
}.

(** What the hook has done so far and the [build_data] it was given. *)
Record hook_state : Type := MkHookState {
  created : gset string;                  (* directories, files and links made by the hook *)
  written : gmap string string;           (* text files written by the hook *)
  hook_log : list hook_event;
  build_data : gmap string pyval
}.

(** [name.rfind(".")], scanning from index [i] with the last hit so far. *)
Fixpoint rfind_dot (s : string) (i : nat) (last : option nat) : option nat :=
  match s with
  | EmptyString => last
  | String c s' =>
      rfind_dot s' (S i) (if bool_decide (String c "" = ".") then Some i else last)
  end.

(** [PurePath.suffix] of a path whose final component is [name]: the part
    from the last dot, unless that dot is the first or the last character. *)
Definition path_suffix (name : string) : string :=
  match rfind_dot name 0 None with
  | Some i =>
      if (0 <? i)%nat && (i <? String.length name - 1)%nat
      then String.substring i (String.length name - i) name
      else ""
  | None => ""
  end.

(** The test of the [for lib_file in lib_dir.iterdir()] loop. *)
Definition is_dynamic_lib (name : string) : bool :=
  String.prefix "libaegis" name
  && (bool_decide (path_suffix name = ".so")
      || bool_decide (path_suffix name = ".dylib")
      || bool_decide (path_suffix name = ".dll")).

(** The loop with its [break]: [dynamic_lib] stays [None] without a match. *)
Fixpoint select_lib (names : list string) : option string :=
  match names with
  | [] => None
  | name :: rest => if is_dynamic_lib name then Some name else select_lib rest
  end.

Section BuildHook.
Variable env : hook_env.

Definition exists_now (st : hook_state) (p : string) : bool :=
  present env p || bool_decide (p ∈ created st).

Definition add_created (p : string) (st : hook_state) : hook_state :=
  {| created := {[p]} ∪ created st; written := written st;
     hook_log := hook_log st; build_data := build_data st |}.

Definition add_written (p text : string) (st : hook_state) : hook_state :=
  {| created := {[p]} ∪ created st; written := <[p := text]> (written st);
     hook_log := hook_log st; build_data := build_data st |}.

Definition add_event (ev : hook_event) (st : hook_state) : hook_state :=
  {| created := created st; written := written st;
     hook_log := hook_log st ++ [ev]; build_data := build_data st |}.

Definition set_build_data (bd : gmap string pyval) (st : hook_state) : hook_state :=
  {| created := created st; written := written st;
     hook_log := hook_log st; build_data := bd |}.

(** [link.symlink_to(target)]: FileExistsError when [link] is taken. *)
Definition symlink_to (link : string) (st : hook_state) : hresult unit * hook_state :=
  if exists_now st link then (Fail FileExistsError, st)
  else if symlink_ok env then (Done tt, add_created link st)
  else (Fail OtherOSError, st).

(** The [for res in "build.zig.zon", "src"] loop. *)
Fixpoint symlink_all (build_dir libaegis_dir : string) (ress : list string)
    (st : hook_state) : hresult unit * hook_state :=
  match ress with
  | [] => (Done tt, st)
  | res :: rest =>
      match symlink_to (pjoin env build_dir res) st with
      | (Done _, st') => symlink_all build_dir libaegis_dir rest st'
      | (Fail e, st') => (Fail e, st')
      end
  end.

(** The two statements on [build_data["force_include"]]. *)
Definition force_include (src dest_rel : string) (bd : gmap string pyval)
  : hresult (gmap string pyval) :=
  let bd :=
    match bd !! "force_include" with
    | None => <["force_include" := PyDict ∅]> bd
    | Some _ => bd
    end in
  match bd !! "force_include" with
  | Some (PyDict d) => Done (<["force_include" := PyDict (<[src := dest_rel]> d)]> bd)
  | _ => Fail ItemTypeError
  end.

Definition initialize (st : hook_state) : hresult unit * hook_state :=
  if negb (bool_decide (target_name env = "wheel")) then (Done tt, st)
  else if negb (which_zig env) then (Fail RuntimeError, st)
  else
    let libaegis_dir := pjoin env (hook_root env) "libaegis" in
    let original_build_zig := pjoin env libaegis_dir "build.zig" in
    if negb (exists_now st original_build_zig) then (Fail RuntimeError, st)
    else
      let build_dir := pjoin env (hook_cwd env) "libaegis-build" in
      if negb (mkdir_ok env) then (Fail OtherOSError, st)
      else
        let st := add_created build_dir st in
        let build_zig := pjoin env build_dir "build.zig" in
        match build_zig_text env with
        | None => (Fail OtherOSError, st)
        | Some text =>
            if negb (write_ok env) then (Fail OtherOSError, st)
            else
              let st :=
                add_written build_zig
                  (str_replace env text ".linkage = .static," ".linkage = .dynamic,") st in
              match symlink_all build_dir libaegis_dir ["build.zig.zon"; "src"] st with
              | (Fail e, st) => (Fail e, st)
              | (Done _, st) =>
                  let st :=
                    add_event
                      (DisplayInfo "[aegis] Building libaegis dynamic library with Zig...")
                      st in
                  let st := add_event (RunZig build_dir) st in
                  match zig_build env with
                  | ZigNonZero => (Fail RuntimeError, st)
                  | ZigNotStarted => (Fail OtherOSError, st)
                  | ZigOk =>
                      let lib_dir := pjoin env (pjoin env build_dir "zig-out") "lib" in
                      match lib_listing env with
                      | None => (Fail OtherOSError, st)
                      | Some names =>
                          match select_lib names with
                          | None => (Fail RuntimeError, st)
                          | Some name =>
                              let dynamic_lib := pjoin env lib_dir name in
                              if negb (lib_exists env dynamic_lib)
                              then (Fail RuntimeError, st)
                              else
                                let dest_rel := pjoin env "build" name in
                                match force_include dynamic_lib dest_rel (build_data st) with
                                | Fail e => (Fail e, st)
                                | Done bd =>
                                    let st := set_build_data bd st in
                                    (Done tt,
                                     add_event
                                       (DisplayInfo
                                          ("[aegis] Added dynamic library to wheel: "
                                             +:+ dest_rel)) st)
                                end
                          end
                      end
                  end
              end
        end.
End BuildHook.

(** A build host with zig installed, the sources under [/src] and the
    build started in [/work]; zig leaves a static and a shared library. *)
Definition sample_hook_env : hook_env := {|
  target_name := "wheel";
  which_zig := true;
  hook_root := "/src";
  hook_cwd := "/work";
  pjoin := slash_join;
  present := fun p => bool_decide (p = "/src/libaegis/build.zig");
  build_zig_text := Some "lib.linkage = .static,";
  str_replace := fun s old new => new;
  mkdir_ok := true;
  write_ok := true;
  symlink_ok := true;
  zig_build := ZigOk;
  lib_listing := Some ["libaegis.a"; "libaegis.so.0"; "libaegis.so"];
  lib_exists := fun _ => true
|}.

(** The state before the first build, with one entry already in
    [force_include]. *)
Definition fresh_hook_state : hook_state := {|
  created := ∅;
  written := ∅;
  hook_log := [];
  build_data := {[ "force_include" := PyDict {[ "LICENSE" := "LICENSE" ]} ]}
|}.

(** * Properties *)

(** ** The definitions on concrete inputs *)

Example nonce_increment_carry :
  nonce_increment (bytearray [xff; xff; x07]) = Ok (bytearray [x00; x00; x08]).
Proof. reflexivity. Qed.

Example nonce_increment_readonly :
  nonce_increment (bytes [x01]) = Raise TypeError.
Proof. reflexivity. Qed.

Example wipe_readonly_empty : wipe (bytes []) = Ok (bytes []).
Proof. reflexivity. Qed.

Example setitem_out_of_range :
  setitem (bytearray [x01; x02]) 2 0 = Raise IndexError.
Proof. reflexivity. Qed.

Example setitem_not_a_byte :
  setitem (bytearray [x01; x02]) 1 256 = Raise ValueError.
Proof. reflexivity. Qed.

Example new_aligned_struct_48 :
  new_aligned_struct sample_env "aegis128l_state" 48 [] = (Raise ValueError, []).
Proof. reflexivity. Qed.

Example new_aligned_struct_1 :
  new_aligned_struct sample_env "aegis128l_state" 1 []
  = (Ok (CPointer "aegis128l_state" 93824992231443,
         CArray "unsigned char" 93824992231443 256),
     [FfiNew 256]).
Proof. reflexivity. Qed.

Example alloc_aligned_negative_size :
  alloc_aligned sample_env (-1) 64 [] = (Raise OverflowError, []).
Proof. reflexivity. Qed.

Example aegis_candidates_sample :
  gen_yields (Aegis._candidate_paths sample_env)
  = ["/opt/aegis/libaegis.so"; "/repo/build/libaegis.so";
     "/repo/zig-out/lib/libaegis.so"; "libaegis.so"].
Proof. reflexivity. Qed.

Example aegis_candidates_denied :
  gen_yields (Aegis._candidate_paths denied_env) = ["/repo/build-shared/libaegis.so"] /\
  gen_end (Aegis._candidate_paths denied_env) = Some PermissionError /\
  loads denied_env "libaegis.so" = true /\
  Aegis._load_libaegis denied_env []
  = (Raise PermissionError, [dl "/repo/build-shared/libaegis.so"]).
Proof. repeat split. Qed.

Example aegis_import_shallow :
  gen_yields (Aegis._candidate_paths shallow_env) = [] /\
  Aegis.module_body shallow_env [] = (Raise IndexError, []).
Proof. split; reflexivity. Qed.

Example new_aligned_struct_array_type :
  new_aligned_struct sample_env "uint8_t[16]" 16 [] = (Raise CDefError, [FfiNew 31]).
Proof. reflexivity. Qed.

Example hx_sample :
  hx (bytearray [x00; xff; x1a; xb2]) None = "00ff1ab2" /\
  hx (bytearray [x00; xff; x1a; xb2]) (Some 3) = "00ff1a" /\
  hx (bytearray [x00; xff; x1a; xb2]) (Some (-3)) = "00".
Proof. repeat split. Qed.

Example pyaegis_import_sample :
  Pyaegis.module_body sample_env []
  = (Ok (MkModule (LibHandle (Some "/pkg/build/libaegis.so"))
                  (LibHandle (Some "libc.so.6"))),
     [dl "/pkg/build/libaegis.so"; dl "libc.so.6"; AegisInit]).
Proof. reflexivity. Qed.

(** ** Bytes *)

Lemma byte_to_Z_range (b : byte) : 0 <= byte_to_Z b < 256.
Proof.
  unfold byte_to_Z. pose proof (Byte.to_N_bounded b). lia.
Qed.

Lemma byte_of_to_Z (b : byte) : byte_of_Z (byte_to_Z b) = Some b.
Proof.
  unfold byte_of_Z. pose proof (byte_to_Z_range b) as Hr.
  replace (0 <=? byte_to_Z b) with true by (symmetry; apply Z.leb_le; lia).
  replace (byte_to_Z b <? 256) with true by (symmetry; apply Z.ltb_lt; lia).
  simpl. unfold byte_to_Z. rewrite N2Z.id. apply Byte.of_to_N.
Qed.

Lemma byte_to_of_Z (v : Z) (b : byte) : byte_of_Z v = Some b -> byte_to_Z b = v.
Proof.
  unfold byte_of_Z. destruct (0 <=? v) eqn:H0; [|discriminate].
  destruct (v <? 256); [|discriminate]. simpl. intros H.
  apply Byte.to_of_N in H. unfold byte_to_Z. rewrite H.
  apply Z.leb_le in H0. lia.
Qed.

Lemma byte_of_Z_fits (v : Z) : 0 <= v < 256 -> exists b, byte_of_Z v = Some b.
Proof.
  intros Hv. unfold byte_of_Z.
  replace (0 <=? v) with true by (symmetry; apply Z.leb_le; lia).
  replace (v <? 256) with true by (symmetry; apply Z.ltb_lt; lia).
  simpl. destruct (Byte.of_N (Z.to_N v)) as [b|] eqn:E; [eauto|].
  apply Byte.of_N_None_iff in E. lia.
Qed.

Lemma le_value_range (l : list byte) : 0 <= le_value l < 256 ^ Z.of_nat (length l).
Proof.
  induction l as [|b t IH]; [simpl; lia|].
  cbn [le_value length]. rewrite Nat2Z.inj_succ, Z.pow_succ_r by lia.
  pose proof (byte_to_Z_range b). lia.
Qed.

(** ** Checked reads and writes *)

Lemma getitem_middle (pre t : list byte) (b : byte) (ro : bool) :
  getitem (MkBuffer (pre ++ b :: t) ro) (length pre) = Ok (byte_to_Z b).
Proof.
  unfold getitem. simpl. by rewrite list_lookup_middle.
Qed.

Lemma setitem_middle (pre t : list byte) (b c : byte) (v : Z) :
  byte_of_Z v = Some c ->
  setitem (MkBuffer (pre ++ b :: t) false) (length pre) v
  = Ok (MkBuffer (pre ++ c :: t) false).
Proof.
  intros Hv. unfold setitem, len. simpl.
  destruct (decide _) as [_|Hn]; [|rewrite length_app in Hn; simpl in Hn; lia].
  rewrite Hv. do 2 f_equal.
  rewrite insert_app_r_alt by lia. by rewrite Nat.sub_diag.
Qed.

Lemma getitem_ok_inv (n : Buffer) (i : nat) (v : Z) :
  getitem n i = Ok v -> (i < len n)%nat /\ 0 <= v < 256.
Proof.
  unfold getitem, len. destruct (contents n !! i) as [b|] eqn:E; [|discriminate].
  intros [= <-]. split; [by eapply lookup_lt_Some | apply byte_to_Z_range].
Qed.

Lemma setitem_ok_inv (n n' : Buffer) (i : nat) (v : Z) :
  setitem n i v = Ok n' -> readonly n = false /\ (i < len n)%nat /\ 0 <= v < 256.
Proof.
  unfold setitem. destruct (readonly n); [discriminate|].
  destruct (decide _) as [Hi|]; [|discriminate].
  destruct (byte_of_Z v) as [b|] eqn:E; [|discriminate]. intros _.
  apply byte_to_of_Z in E. pose proof (byte_to_Z_range b). repeat split; lia || done.
Qed.

(** ** nonce_increment *)

Lemma byte_succ_val (b : byte) :
  byte_to_Z b < 255 ->
  byte_of_Z (byte_to_Z b + 1) = Some (byte_succ b) /\
  byte_to_Z (byte_succ b) = byte_to_Z b + 1.
Proof.
  intros Hb. pose proof (byte_to_Z_range b).
  destruct (byte_of_Z_fits (byte_to_Z b + 1)) as [c Hc]; [lia|].
  unfold byte_succ. rewrite Hc. split; [done | by apply byte_to_of_Z].
Qed.

Lemma nonce_increment_loop_spec (t pre : list byte) :
  nonce_increment_loop (seq (length pre) (length t)) (MkBuffer (pre ++ t) false)
  = Ok (MkBuffer (pre ++ le_successor t) false).
Proof.
  revert pre. induction t as [|b t IH]; intros pre; [done|].
  cbn [length seq nonce_increment_loop le_successor].
  rewrite getitem_middle. cbn [rbind].
  destruct (byte_to_Z b <? 255) eqn:Hb.
  - apply Z.ltb_lt, byte_succ_val in Hb as [Hs _]. cbn [rbind].
    by apply setitem_middle.
  - rewrite (setitem_middle pre t b x00 0) by done. cbn [rbind].
    specialize (IH (pre ++ [x00])).
    rewrite length_app, Nat.add_1_r, <- !app_assoc in IH. exact IH.
Qed.

Lemma nonce_increment_spec (l : list byte) :
  nonce_increment (bytearray l) = Ok (bytearray (le_successor l)).
Proof. exact (nonce_increment_loop_spec l []). Qed.

Lemma le_successor_length (l : list byte) : length (le_successor l) = length l.
Proof.
  induction l as [|b t IH]; [done|]. simpl.
  destruct (byte_to_Z b <? 255); simpl; congruence.
Qed.

Lemma le_successor_value (l : list byte) :
  le_value (le_successor l) = (le_value l + 1) mod 256 ^ Z.of_nat (length l).
Proof.
  induction l as [|b t IH].
  - simpl. by rewrite Z.mod_1_r.
  - cbn [le_successor le_value length].
    rewrite Nat2Z.inj_succ, Z.pow_succ_r by lia.
    pose proof (byte_to_Z_range b) as Hb. pose proof (le_value_range t) as Ht.
    destruct (byte_to_Z b <? 255) eqn:E.
    + apply Z.ltb_lt in E. destruct (byte_succ_val b E) as [_ Hv].
      cbn [le_value]. rewrite Hv, Z.mod_small; lia.
    + apply Z.ltb_ge in E. cbn [le_value]. rewrite IH.
      replace (byte_to_Z b + 256 * le_value t + 1) with (256 * (le_value t + 1)) by lia.
      rewrite Z.mul_mod_distr_l by lia. done.
Qed.

Lemma writable_bytearray (b : Buffer) : readonly b = false -> b = bytearray (contents b).
Proof. destruct b as [l ro]. simpl. by intros ->. Qed.

Lemma readonly_nonempty_raises (l : list byte) (b : byte) :
  nonce_increment (bytes (b :: l)) = Raise TypeError /\
  wipe (bytes (b :: l)) = Raise TypeError.
Proof.
  split; [|done]. unfold nonce_increment, memoryview, len. cbn.
  by destruct (byte_to_Z b <? 255).
Qed.

(** Every normal return of nonce_increment, on any buffer, is the
    little-endian successor of the contents. *)
Lemma nonce_increment_ok_inv (b b' : Buffer) :
  nonce_increment b = Ok b' ->
  contents b' = le_successor (contents b) /\ readonly b' = readonly b.
Proof.
  destruct b as [l [|]].
  - destruct l as [|x l]; [by intros [= <-]|].
    change (MkBuffer (x :: l) true) with (bytes (x :: l)).
    by rewrite (proj1 (readonly_nonempty_raises l x)).
  - change (MkBuffer l false) with (bytearray l). rewrite nonce_increment_spec.
    by intros [= <-].
Qed.

(** C1: nonce_increment returns normally on every writable byte buffer, and
    whenever it returns the buffer has its length n unchanged and, read as a
    little-endian unsigned integer, the old value plus one modulo 256^n;
    0xFF 0xFF becomes 0x00 0x00 and 0x01 0x00 becomes 0x02 0x00. *)
Theorem nonce_increment_adds_one (b : Buffer) :
  (readonly b = false -> exists b', nonce_increment b = Ok b') /\
  (forall b',
      nonce_increment b = Ok b' ->
      len b' = len b /\
      le_value (contents b') = (le_value (contents b) + 1) mod 256 ^ Z.of_nat (len b)) /\
  nonce_increment (bytearray [xff; xff]) = Ok (bytearray [x00; x00]) /\
  nonce_increment (bytearray [x01; x00]) = Ok (bytearray [x02; x00]).
Proof.
  split; [|split; [|split; reflexivity]].
  - intros Hw. rewrite (writable_bytearray b Hw), nonce_increment_spec. eauto.
  - intros b' Hrun. apply nonce_increment_ok_inv in Hrun as [Hc _].
    unfold len. rewrite Hc.
    split; [apply le_successor_length | apply le_successor_value].
Qed.

Lemma nonce_increment_adds_one_witness :
  exists b', nonce_increment (bytearray [xff; x02; x10]) = Ok b' /\
             le_value (contents b') = 1049344.
Proof.
  destruct (nonce_increment_adds_one (bytearray [xff; x02; x10]))
    as (Hret & Hval & _).
  destruct (Hret eq_refl) as [b' Hrun]. exists b'. split; [exact Hrun|].
  destruct (Hval b' Hrun) as [_ ->]. reflexivity.
Defined.

(** ** wipe *)

Lemma wipe_loop_spec (t pre : list byte) :
  wipe_loop (seq (length pre) (length t)) (MkBuffer (pre ++ t) false)
  = Ok (MkBuffer (pre ++ replicate (length t) x00) false).
Proof.
  revert pre. induction t as [|b t IH]; intros pre; [done|].
  cbn [length seq wipe_loop replicate].
  rewrite (setitem_middle pre t b x00 0) by done. cbn [rbind].
  specialize (IH (pre ++ [x00])).
  rewrite length_app, Nat.add_1_r, <- !app_assoc in IH. exact IH.
Qed.

Lemma wipe_spec (l : list byte) :
  wipe (bytearray l) = Ok (bytearray (replicate (length l) x00)).
Proof. exact (wipe_loop_spec l []). Qed.

Lemma wipe_ok_inv (b b' : Buffer) :
  wipe b = Ok b' ->
  contents b' = replicate (len b) x00 /\ readonly b' = readonly b.
Proof.
  destruct b as [l [|]].
  - destruct l as [|x l]; [by intros [= <-]|].
    change (MkBuffer (x :: l) true) with (bytes (x :: l)).
    by rewrite (proj2 (readonly_nonempty_raises l x)).
  - change (MkBuffer l false) with (bytearray l). rewrite wipe_spec.
    by intros [= <-].
Qed.

Lemma wipe_twice (b b' : Buffer) : wipe b = Ok b' -> wipe b' = Ok b'.
Proof.
  destruct b as [l [|]].
  - destruct l as [|x l]; [by intros [= <-]|].
    change (MkBuffer (x :: l) true) with (bytes (x :: l)).
    by rewrite (proj2 (readonly_nonempty_raises l x)).
  - change (MkBuffer l false) with (bytearray l). rewrite wipe_spec.
    intros [= <-]. by rewrite wipe_spec, length_replicate.
Qed.

(** C2: wipe returns normally on every writable byte buffer, and whenever it
    returns, on a buffer of any length, 0 included, every byte is 0 and a
    second wipe returns the same all-zero buffer. *)
Theorem wipe_zeroes (b : Buffer) :
  (readonly b = false -> exists b', wipe b = Ok b') /\
  (forall b',
      wipe b = Ok b' ->
      len b' = len b /\
      (forall i, (i < len b)%nat -> contents b' !! i = Some x00) /\
      contents b' = replicate (len b) x00 /\
      wipe b' = Ok b') /\
  wipe (bytearray []) = Ok (bytearray []).
Proof.
  split; [|split; [|reflexivity]].
  - intros Hw. rewrite (writable_bytearray b Hw), wipe_spec. eauto.
  - intros b' Hrun. destruct (wipe_ok_inv b b' Hrun) as [Hc Hro].
    unfold len in *. rewrite Hc, length_replicate. repeat split.
    + intros i Hi. by apply lookup_replicate_2.
    + by apply (wipe_twice b).
Qed.

Lemma wipe_zeroes_witness :
  exists b', wipe (bytearray [x13; xff; x00; x7a]) = Ok b' /\
             contents b' = [x00; x00; x00; x00].
Proof.
  destruct (wipe_zeroes (bytearray [x13; xff; x00; x7a])) as (Hret & Hz & _).
  destruct (Hret eq_refl) as [b' Hrun]. exists b'. split; [exact Hrun|].
  destruct (Hz b' Hrun) as (_ & _ & Hc & _). exact Hc.
Defined.

(** ** Frame of nonce_increment *)

Lemma le_successor_first (l : list byte) (k : nat) (x : byte) :
  l !! k = Some x ->
  byte_to_Z x < 255 ->
  (forall j y, (j < k)%nat -> l !! j = Some y -> y = xff) ->
  (forall j, (k < j)%nat -> le_successor l !! j = l !! j) /\
  le_successor l !! k = Some (byte_succ x) /\
  (forall j, (j < k)%nat -> le_successor l !! j = Some x00).
Proof.
  revert k. induction l as [|b t IH]; intros k Hk Hx Hpre; [done|].
  destruct k as [|k].
  - injection Hk as ->. cbn [le_successor].
    apply Z.ltb_lt in Hx. rewrite Hx. repeat split.
    + intros [|j] Hj; [lia | done].
    + intros j Hj. lia.
  - assert (b = xff) as -> by (apply (Hpre 0%nat); [lia | done]).
    cbn [le_successor]. change (byte_to_Z xff <? 255) with false. cbv iota.
    destruct (IH k Hk Hx) as (Hgt & Heq & Hlt).
    { intros j y Hj Hy. apply (Hpre (S j)); [lia | done]. }
    repeat split.
    + intros [|j] Hj; [lia|]. apply Hgt. lia.
    + exact Heq.
    + intros [|j] Hj; [done|]. apply Hlt. lia.
Qed.

Lemma le_successor_all_ff (l : list byte) :
  (forall j y, l !! j = Some y -> y = xff) ->
  le_successor l = replicate (length l) x00.
Proof.
  induction l as [|b t IH]; intros Hall; [done|].
  assert (b = xff) as -> by (by apply (Hall 0%nat)).
  cbn [le_successor length replicate]. change (byte_to_Z xff <? 255) with false.
  cbv iota. f_equal. apply IH. intros j y Hy. by apply (Hall (S j)).
Qed.

(** C9: nonce_increment returns normally on every writable byte buffer,
    and whenever it returns it has changed only the prefix up to and
    including the lowest-index byte below 0xFF.  With k that index: the
    bytes above k are unchanged, byte k is one more, the bytes below k
    (all 0xFF) are 0.  When every byte is 0xFF the whole buffer is zero. *)
Theorem nonce_increment_frame (b : Buffer) :
  (readonly b = false -> exists b', nonce_increment b = Ok b') /\
  (forall b',
      nonce_increment b = Ok b' ->
      len b' = len b /\
      (forall k x,
          contents b !! k = Some x ->
          byte_to_Z x < 255 ->
          (forall j y, (j < k)%nat -> contents b !! j = Some y -> y = xff) ->
          (forall j, (k < j)%nat -> contents b' !! j = contents b !! j) /\
          (exists x', contents b' !! k = Some x' /\ byte_to_Z x' = byte_to_Z x + 1) /\
          (forall j, (j < k)%nat -> contents b' !! j = Some x00)) /\
      ((forall j y, contents b !! j = Some y -> y = xff) ->
       contents b' = replicate (len b) x00)).
Proof.
  split.
  - intros Hw. rewrite (writable_bytearray b Hw), nonce_increment_spec. eauto.
  - intros b' Hrun. apply nonce_increment_ok_inv in Hrun as [Hc _].
    unfold len. rewrite Hc.
    split; [apply le_successor_length|]. split.
    + intros k x Hk Hx Hpre.
      destruct (le_successor_first _ k x Hk Hx Hpre) as (Hgt & Heq & Hlt).
      repeat split; [exact Hgt | | exact Hlt].
      exists (byte_succ x). split; [exact Heq | by apply byte_succ_val].
    + apply le_successor_all_ff.
Qed.

Lemma nonce_increment_frame_witness :
  exists b', nonce_increment (bytearray [xff; xff; x41; xff; x09]) = Ok b' /\
             contents b' !! 3%nat = Some xff /\ contents b' !! 4%nat = Some x09.
Proof.
  destruct (nonce_increment_frame (bytearray [xff; xff; x41; xff; x09]))
    as (Hret & Hframe).
  destruct (Hret eq_refl) as [b' Hrun]. exists b'. split; [exact Hrun|].
  destruct (Hframe b' Hrun) as (_ & Hfr & _).
  destruct (Hfr 2%nat x41 eq_refl) as (Hgt & _ & _).
  - reflexivity.
  - intros [|[|j]] y Hj Hy; solve [ by inversion Hy | lia ].
  - split; rewrite Hgt by lia; reflexivity.
Defined.

(** ** Termination without exception *)

(** C10: on a writable byte buffer both wipe and nonce_increment return
    without raising.  Reads and writes are the checked ones: a write
    succeeds only at an index below the length with a value in 0..255, a
    read only at an index below the length, so a normal return means no
    access went out of bounds and no value out of range. *)
Theorem wipe_nonce_increment_no_exception (b : Buffer) (Hw : readonly b = false) :
  (exists b', wipe b = Ok b' /\ len b' = len b) /\
  (exists b', nonce_increment b = Ok b' /\ len b' = len b) /\
  (forall n i v n', setitem n i v = Ok n' -> (i < len n)%nat /\ 0 <= v < 256) /\
  (forall n i v, getitem n i = Ok v -> (i < len n)%nat).
Proof.
  rewrite (writable_bytearray b Hw), wipe_spec, nonce_increment_spec.
  split; [|split; [|split]].
  - eexists. split; [reflexivity|]. apply length_replicate.
  - eexists. split; [reflexivity|]. apply le_successor_length.
  - intros n i v n' Hset. by apply setitem_ok_inv in Hset as (_ & Hi & Hv).
  - intros n i v Hget. by apply getitem_ok_inv in Hget as [Hi _].
Qed.

Lemma wipe_nonce_increment_no_exception_witness :
  (exists b', wipe (bytearray [xff; xff]) = Ok b' /\ len b' = 2%nat) /\
  (exists b', nonce_increment (bytearray [xff; xff]) = Ok b' /\ len b' = 2%nat).
Proof.
  destruct (wipe_nonce_increment_no_exception (bytearray [xff; xff]) eq_refl)
    as (Hw & Hn & _).
  exact (conj Hw Hn).
Defined.

(** ** Alignment arithmetic *)

Lemma land_mask (x k : Z) : 0 <= k -> Z.land x (2 ^ k - 1) = x mod 2 ^ k.
Proof.
  intros Hk. rewrite <- Z.land_ones by done. by rewrite Z.ones_equiv, <- Z.sub_1_r.
Qed.

Lemma pow2_guard_passes (a : Z) : is_pow2 a -> Z.land a (a - 1) = 0.
Proof.
  intros (k & Hk & ->). rewrite land_mask by done. apply Z.mod_same.
  pose proof (Z.pow_pos_nonneg 2 k). lia.
Qed.

(** The test [alignment & (alignment - 1)] is zero exactly on the powers of
    two and on 0. *)
Lemma pow2_guard_iff (a : Z) : Z.land a (a - 1) = 0 <-> a = 0 \/ is_pow2 a.
Proof.
  split.
  - intros Hland. destruct (Z.lt_trichotomy a 0) as [Hneg | [-> | Hpos]].
    + assert (Z.land a (a - 1) < 0) by (apply Z.land_neg; lia). lia.
    + by left.
    + right. pose proof (Z.log2_nonneg a) as Hk0.
      destruct (Z.log2_spec a Hpos) as [Hlo Hhi].
      destruct (Z.eq_dec a (2 ^ Z.log2 a)) as [Heq|Hne];
        [by exists (Z.log2 a)|].
      exfalso.
      assert (Z.log2 (a - 1) = Z.log2 a) as Hk1.
      { apply Z.log2_unique; [done | lia]. }
      assert (Z.testbit (Z.land a (a - 1)) (Z.log2 a) = true) as Hbit.
      { rewrite Z.land_spec, Z.bit_log2 by done.
        rewrite <- Hk1. rewrite Z.bit_log2 by lia. done. }
      rewrite Hland, Z.bits_0 in Hbit. discriminate.
  - intros [-> | Hp]; [done | by apply pow2_guard_passes].
Qed.

Lemma aligned_offset (addr k : Z) :
  0 <= k <= 64 ->
  let offset := Z.land (- uintptr_t addr) (2 ^ k - 1) in
  0 <= offset < 2 ^ k /\ (addr + offset) mod 2 ^ k = 0.
Proof.
  intros Hk offset. subst offset. rewrite land_mask by lia.
  assert (0 < 2 ^ k) as Hpos by (apply Z.pow_pos_nonneg; lia).
  split; [by apply Z.mod_pos_bound|].
  assert (uintptr_t addr mod 2 ^ k = addr mod 2 ^ k) as Hcast.
  { unfold uintptr_t. apply Z.mod_mod_divide.
    exists (2 ^ (64 - k)). rewrite <- Z.pow_add_r by lia. f_equal. lia. }
  rewrite Zplus_mod_idemp_r, Z.add_opp_r, Zminus_mod, Hcast, Z.sub_diag.
  done.
Qed.

(** ** new_aligned_struct *)

(** Once the alignment test passes, the call is determined by the size of
    the type and the allocator's answer. *)
Lemma new_aligned_struct_run (env : environ) (ctype : string) (a : Z) (t : trace) :
  Z.land a (a - 1) = 0 ->
  new_aligned_struct env ctype a t =
  match ffi_sizeof env ctype with
  | Raise e => (Raise e, t)
  | Ok s =>
      let n := Z.of_N s + a - 1 in
      if n <? 0 then (Raise ValueError, t)
      else if ssize_max <? n then (Raise OverflowError, t)
      else match heap_alloc env n with
           | Some addr =>
               (if ffi_pointer_ok env ctype
                then Ok (CPointer ctype (addr + Z.land (- uintptr_t addr) (a - 1)),
                         CArray "unsigned char" addr n)
                else Raise CDefError,
                t ++ [FfiNew n])
           | None => (Raise MemoryError, t ++ [FfiNew n])
           end
  end.
Proof.
  intros Hg. unfold new_aligned_struct. rewrite Hg. cbn [Z.eqb negb].
  unfold bind, ffi_sizeof_. destruct (ffi_sizeof env ctype) as [s|e]; [|done].
  cbn [ret]. unfold ffi_new_uchar_array. cbv zeta.
  destruct (Z.of_N s + a - 1 <? 0); [done|].
  destruct (ssize_max <? Z.of_N s + a - 1); [done|].
  unfold bind, emit. destruct (heap_alloc env _) as [addr|]; [|done].
  cbn [ret]. unfold aligned_address, ffi_cast_ptr, ffi_addressof. cbn [cd_addr].
  rewrite Z.add_0_r. by destruct (ffi_pointer_ok env ctype).
Qed.

Lemma new_aligned_struct_rejects (env : environ) (ctype : string) (a : Z) (t : trace) :
  Z.land a (a - 1) <> 0 ->
  new_aligned_struct env ctype a t = (Raise ValueError, t).
Proof.
  intros Hg. unfold new_aligned_struct.
  destruct (Z.eqb_spec (Z.land a (a - 1)) 0); [done|]. done.
Qed.

Lemma pow2_below_ssize (k s : Z) :
  0 <= k -> 0 <= s -> s + 2 ^ k - 1 <= ssize_max -> k <= 64.
Proof.
  intros Hk Hs Hn. unfold ssize_max in Hn.
  destruct (Z.le_gt_cases k 64) as [|Hgt]; [done|].
  assert (2 ^ 64 <= 2 ^ k) by (apply Z.pow_le_mono_r; lia). lia.
Qed.

(** C3: when new_aligned_struct succeeds for a power-of-two alignment a,
    the address of the returned pointer is a multiple of a. *)
Theorem new_aligned_struct_aligned
    (env : environ) (ctype : string) (a : Z) (t t' : trace) (ptr owner : cdata) :
  is_pow2 a ->
  new_aligned_struct env ctype a t = (Ok (ptr, owner), t') ->
  cd_addr ptr mod a = 0.
Proof.
  intros Hp Hrun. rewrite new_aligned_struct_run in Hrun by (by apply pow2_guard_passes).
  destruct Hp as (k & Hk & ->).
  destruct (ffi_sizeof env ctype) as [s|]; [|discriminate]. cbv zeta in Hrun.
  destruct (Z.of_N s + 2 ^ k - 1 <? 0); [discriminate|].
  destruct (Z.ltb_spec ssize_max (Z.of_N s + 2 ^ k - 1)) as [|Hn]; [discriminate|].
  destruct (heap_alloc env _) as [addr|]; [|discriminate].
  destruct (ffi_pointer_ok env ctype); [|discriminate].
  injection Hrun as <- _ _. cbn [cd_addr].
  apply aligned_offset. split; [done|]. apply (pow2_below_ssize k (Z.of_N s)); lia.
Qed.

Lemma new_aligned_struct_aligned_witness :
  exists ptr owner t',
    new_aligned_struct sample_env "aegis128l_state" 64 [] = (Ok (ptr, owner), t') /\
    cd_addr ptr mod 64 = 0.
Proof.
  eexists _, _, _. split; [reflexivity|].
  eapply (new_aligned_struct_aligned sample_env "aegis128l_state" 64 []).
  - exists 6. split; [lia | reflexivity].
  - reflexivity.
Defined.

(** C4, at alignment 0: the test [alignment & (alignment - 1)] is
    [0 & -1 = 0], so no ValueError is raised; the call goes on to allocate
    [size - 1] bytes and returns a pointer at address 0. *)
Theorem new_aligned_struct_zero_alignment :
  new_aligned_struct sample_env "aegis128l_state" 0 []
  = (Ok (CPointer "aegis128l_state" 0, CArray "unsigned char" 93824992231443 255),
     [FfiNew 255]).
Proof. reflexivity. Qed.

(** The same for every environment: at alignment 0 a type of positive size
    reaches the allocator, with a request of [size - 1] bytes. *)
Lemma new_aligned_struct_zero_allocates
    (env : environ) (ctype : string) (s : N) (t : trace) :
  ffi_sizeof env ctype = Ok s ->
  (0 < s)%N ->
  Z.of_N s - 1 <= ssize_max ->
  snd (new_aligned_struct env ctype 0 t) = t ++ [FfiNew (Z.of_N s - 1)] /\
  fst (new_aligned_struct env ctype 0 t) <> Raise ValueError.
Proof.
  intros Hs Hpos Hmax. rewrite new_aligned_struct_run by reflexivity.
  rewrite Hs. cbv zeta. replace (Z.of_N s + 0 - 1) with (Z.of_N s - 1) by lia.
  destruct (Z.ltb_spec (Z.of_N s - 1) 0); [lia|].
  destruct (Z.ltb_spec ssize_max (Z.of_N s - 1)); [lia|].
  destruct (heap_alloc env _); [|done]. by destruct (ffi_pointer_ok env ctype).
Qed.

(** Away from 0 the test is exact: ValueError, with nothing allocated, on
    every value that is not a power of two, and no ValueError from the test
    on a power of two. *)
Lemma new_aligned_struct_guard_nonzero (env : environ) (ctype : string) (a : Z) (t : trace) :
  a <> 0 ->
  (~ is_pow2 a -> new_aligned_struct env ctype a t = (Raise ValueError, t)) /\
  (is_pow2 a -> forall s, ffi_sizeof env ctype = Ok s ->
     fst (new_aligned_struct env ctype a t) <> Raise ValueError).
Proof.
  intros Ha. split.
  - intros Hnp. apply new_aligned_struct_rejects. rewrite pow2_guard_iff. tauto.
  - intros Hp s Hs. rewrite new_aligned_struct_run by (by apply pow2_guard_passes).
    rewrite Hs. cbv zeta. destruct Hp as (k & Hk & ->).
    assert (0 < 2 ^ k) by (apply Z.pow_pos_nonneg; lia).
    destruct (Z.ltb_spec (Z.of_N s + 2 ^ k - 1) 0); [lia|].
    destruct (_ <? _); [done|]. destruct (heap_alloc env _); [|done].
    by destruct (ffi_pointer_ok env ctype).
Qed.

(** C5: for a power-of-two alignment a and a type of size s, one region of
    exactly s + a - 1 bytes is requested.  When the allocator returns it at
    addr, an offset with 0 <= offset < a is computed, [offset, offset + s)
    lies inside the region and addr + offset is a multiple of a; the call
    then returns the pointer addr + offset with the region itself (the
    array at addr of length s + a - 1) as owner, unless "<ctype> *" is not a
    type, in which case the cast raises CDefError.  Every pair the call
    returns has this shape. *)
Theorem new_aligned_struct_layout
    (env : environ) (ctype : string) (a : Z) (s : N) (t : trace) :
  is_pow2 a ->
  ffi_sizeof env ctype = Ok s ->
  Z.of_N s + a - 1 <= ssize_max ->
  let n := Z.of_N s + a - 1 in
  snd (new_aligned_struct env ctype a t) = t ++ [FfiNew n] /\
  (forall addr, heap_alloc env n = Some addr ->
     exists offset,
       0 <= offset < a /\
       offset + Z.of_N s <= n /\
       (addr + offset) mod a = 0 /\
       new_aligned_struct env ctype a t
       = (if ffi_pointer_ok env ctype
          then Ok (CPointer ctype (addr + offset), CArray "unsigned char" addr n)
          else Raise CDefError,
          t ++ [FfiNew n])) /\
  (forall ptr owner t',
     new_aligned_struct env ctype a t = (Ok (ptr, owner), t') ->
     exists addr offset,
       heap_alloc env n = Some addr /\
       owner = CArray "unsigned char" addr n /\
       ptr = CPointer ctype (addr + offset) /\
       0 <= offset < a /\
       offset + Z.of_N s <= n /\
       (addr + offset) mod a = 0).
Proof.
  intros Hp Hs Hn n. rewrite new_aligned_struct_run by (by apply pow2_guard_passes).
  rewrite Hs. cbv zeta. fold n. destruct Hp as (k & Hk & ->).
  assert (0 < 2 ^ k) by (apply Z.pow_pos_nonneg; lia).
  destruct (Z.ltb_spec n 0); [lia|].
  destruct (Z.ltb_spec ssize_max n); [lia|].
  assert (forall addr,
             0 <= Z.land (- uintptr_t addr) (2 ^ k - 1) < 2 ^ k /\
             Z.land (- uintptr_t addr) (2 ^ k - 1) + Z.of_N s <= n /\
             (addr + Z.land (- uintptr_t addr) (2 ^ k - 1)) mod 2 ^ k = 0) as Hoff.
  { intros addr. destruct (aligned_offset addr k) as [Hoff Hal].
    { split; [done|]. apply (pow2_below_ssize k (Z.of_N s)); lia. }
    cbv zeta in Hoff, Hal. repeat split; lia || done. }
  split; [|split].
  - destruct (heap_alloc env n); [|done]. by destruct (ffi_pointer_ok env ctype).
  - intros addr ->. eexists. destruct (Hoff addr) as (Ho1 & Ho2 & Ho3).
    split; [exact Ho1|]. split; [exact Ho2|]. split; [exact Ho3|]. reflexivity.
  - intros ptr owner t'. destruct (heap_alloc env n) as [addr|]; [|discriminate].
    destruct (ffi_pointer_ok env ctype); [|discriminate].
    intros [= <- <- _]. destruct (Hoff addr) as (Ho1 & Ho2 & Ho3).
    eexists addr, _. repeat split; try done; lia.
Qed.

Lemma new_aligned_struct_layout_witness :
  exists offset,
    new_aligned_struct sample_env "aegis128l_state" 32 []
    = (Ok (CPointer "aegis128l_state" (93824992231443 + offset),
           CArray "unsigned char" 93824992231443 287),
       [FfiNew 287]) /\
    0 <= offset < 32 /\ offset + 256 <= 287.
Proof.
  destruct (new_aligned_struct_layout sample_env "aegis128l_state" 32 256%N [])
    as (_ & Hlay & _).
  - exists 5. split; [lia | reflexivity].
  - reflexivity.
  - unfold ssize_max. simpl. lia.
  - destruct (Hlay 93824992231443 eq_refl) as (offset & Hoff & Hin & _ & Hrun).
    exists offset. repeat split; solve [exact Hrun | lia].
Defined.

(** ** alloc_aligned *)

Lemma count_app (p : event -> bool) (t1 t2 : trace) :
  count p (t1 ++ t2) = (count p t1 + count p t2)%nat.
Proof. unfold count. by rewrite List.filter_app, length_app. Qed.

Lemma alloc_aligned_run (env : environ) (size alignment : Z) (t : trace) :
  alloc_aligned env size alignment t =
  if fits_size_t alignment && fits_size_t size then
    let rc := fst (posix_memalign_outcome env alignment size) in
    let p := match snd (posix_memalign_outcome env alignment size) with
             | Some p => p
             | None => NULL
             end in
    (if negb (rc =? 0) || (p =? NULL) then Raise MemoryError
     else Ok (CPointer "void" p),
     t ++ [PosixMemalign alignment size])
  else (Raise OverflowError, t).
Proof.
  unfold alloc_aligned. destruct (fits_size_t alignment && fits_size_t size); [|done].
  cbn [negb]. unfold bind, emit.
  destruct (posix_memalign_outcome env alignment size) as [rc stored].
  cbn [fst snd]. by destruct (negb (rc =? 0) || _).
Qed.

(** C6: alloc_aligned raises MemoryError exactly when posix_memalign was
    called and returned a nonzero status or left a NULL pointer; a normal
    return is the pointer posix_memalign stored; in every case
    posix_memalign is called at most once, and exactly once on a normal
    return or a MemoryError. *)
Theorem alloc_aligned_outcome (env : environ) (size alignment : Z) (t : trace) :
  let rc := fst (posix_memalign_outcome env alignment size) in
  let p := match snd (posix_memalign_outcome env alignment size) with
           | Some p => p
           | None => NULL
           end in
  let res := fst (alloc_aligned env size alignment t) in
  let t' := snd (alloc_aligned env size alignment t) in
  (res = Raise MemoryError <->
     t' = t ++ [PosixMemalign alignment size] /\ (rc <> 0 \/ p = NULL)) /\
  (forall v, res = Ok v <->
     t' = t ++ [PosixMemalign alignment size] /\ rc = 0 /\ p <> NULL /\
     v = CPointer "void" p) /\
  (t' = t \/ t' = t ++ [PosixMemalign alignment size]) /\
  (count is_PosixMemalign t' <= count is_PosixMemalign t + 1)%nat.
Proof.
  cbv zeta. rewrite alloc_aligned_run.
  destruct (fits_size_t alignment && fits_size_t size); cbn [fst snd].
  - set (rc := fst _). set (p := match snd _ with Some q => q | None => NULL end).
    destruct (Z.eqb_spec rc 0) as [Hrc|Hrc], (Z.eqb_spec p NULL) as [Hp|Hp];
      cbn [negb orb]; repeat split;
      try solve [ intros; intuition (congruence || lia)
                | by right
                | rewrite count_app; cbn; lia ].
  - repeat split;
      try solve [ discriminate | by left | lia
                | intros [Ht _]; apply (f_equal length) in Ht;
                  rewrite length_app in Ht; simpl in Ht; lia ].
Qed.

Lemma alloc_aligned_outcome_witness :
  fst (alloc_aligned sample_env 256 64 []) = Ok (CPointer "void" 93824992236608) /\
  snd (alloc_aligned sample_env 256 64 []) = [PosixMemalign 64 256].
Proof.
  destruct (alloc_aligned_outcome sample_env 256 64 []) as (_ & Hok & _).
  split; [|reflexivity]. apply Hok. repeat split; done.
Defined.

(** ** Library loading *)

Lemma ffi_dlopen_run (env : environ) (name : option string) (t : trace) :
  ffi_dlopen env name t =
  (match dlopen_outcome env name with
   | None => Ok (LibHandle name)
   | Some e => Raise e
   end, t ++ [Dlopen name]).
Proof.
  unfold ffi_dlopen, bind, emit. by destruct (dlopen_outcome env name).
Qed.

Lemma load_loop_run (env : environ) (g : gen string) (last : option exn) (t : trace) :
  Aegis.load_loop env g last t =
  (match List.find (loads env) (gen_yields g) with
   | Some c => Ok (LibHandle (Some c))
   | None => Raise (load_failure g)
   end, t ++ List.map dl (attempts env (gen_yields g))).
Proof.
  revert last t. induction g as [|e|c rest IH]; intros last t.
  - simpl. unfold raise. by rewrite app_nil_r.
  - simpl. unfold raise. by rewrite app_nil_r.
  - cbn [Aegis.load_loop gen_yields List.find attempts]. unfold try_except.
    rewrite ffi_dlopen_run. unfold loads at 1 3.
    destruct (dlopen_outcome env (Some c)) as [e|]; [|done].
    rewrite IH. cbn [List.map]. by rewrite <- app_assoc.
Qed.

Lemma find_first (env : environ) (pre post : list string) (c : string) :
  (forall x, In x pre -> loads env x = false) ->
  loads env c = true ->
  List.find (loads env) (pre ++ c :: post) = Some c /\
  attempts env (pre ++ c :: post) = pre ++ [c].
Proof.
  intros Hpre Hc. induction pre as [|x pre IH]; simpl.
  - by rewrite Hc.
  - rewrite (Hpre x) by (by left).
    destruct IH as [-> ->]; [|done]. intros y Hy. apply Hpre. by right.
Qed.

Lemma find_none (env : environ) (cands : list string) :
  List.find (loads env) cands = None <->
  (forall x, In x cands -> loads env x = false).
Proof.
  induction cands as [|c rest IH]; simpl; [tauto|].
  destruct (loads env c) eqn:Hc.
  - split; [discriminate|]. intros H. specialize (H c (or_introl eq_refl)). congruence.
  - rewrite IH. split.
    + intros H x [<-|Hx]; [done | by apply H].
    + intros H x Hx. apply H. by right.
Qed.

Lemma attempts_all_fail (env : environ) (cands : list string) :
  (forall x, In x cands -> loads env x = false) -> attempts env cands = cands.
Proof.
  induction cands as [|c rest IH]; intros H; [done|]. simpl.
  rewrite (H c) by (by left). f_equal. apply IH. intros x Hx. apply H. by right.
Qed.

Lemma load_libc_run (env : environ) (t : trace) :
  exists names, snd (_load_libc env t) = t ++ List.map Dlopen names.
Proof.
  assert (forall t0, exists names,
             snd (try_except (ffi_dlopen env None) (fun _ => raise OSError) t0)
             = t0 ++ List.map Dlopen names) as Hfb.
  { intros t0. exists [None]. unfold try_except. rewrite ffi_dlopen_run.
    by destruct (dlopen_outcome env None). }
  unfold _load_libc. destruct (ctypes_util env); [|apply Hfb].
  destruct (truthy _) as [name|]; [|apply Hfb].
  unfold try_except at 1. rewrite ffi_dlopen_run.
  destruct (dlopen_outcome env (Some name)).
  - destruct (Hfb (t ++ [Dlopen (Some name)])) as [names ->].
    exists (Some name :: names). by rewrite <- app_assoc.
  - by exists [Some name].
Qed.

Lemma pyaegis_load_libaegis_run (env : environ) (t : trace) :
  let candidate :=
    os_path_join env (os_path_join env (pkg_dir env) "build")
                 (Pyaegis._platform_lib_name env) in
  Pyaegis._load_libaegis env t =
  if path_exists env candidate then
    (if loads env candidate then Ok (LibHandle (Some candidate)) else Raise OSError,
     t ++ [dl candidate])
  else (Raise OSError, t).
Proof.
  cbv zeta. unfold Pyaegis._load_libaegis. destruct (path_exists env _); [|done].
  unfold try_except. rewrite ffi_dlopen_run. unfold loads.
  by destruct (dlopen_outcome env _).
Qed.

Lemma count_map_Dlopen (p : event -> bool) (names : list (option string)) :
  (forall n, p (Dlopen n) = false) -> count p (List.map Dlopen names) = 0%nat.
Proof.
  intros Hp. unfold count. induction names as [|n names IH]; [done|].
  simpl. by rewrite Hp.
Qed.

Lemma load_and_init_run (env : environ) (L : M libhandle) (t : trace) :
  load_and_init env L t =
  match L t with
  | (Ok l, t1) =>
      match _load_libc env t1 with
      | (Ok c, t2) => (Ok (MkModule l c), t2 ++ [AegisInit])
      | (Raise e, t2) => (Raise e, t2)
      end
  | (Raise e, t1) => (Raise e, t1)
  end.
Proof.
  unfold load_and_init, bind. destruct (L t) as [[l|e] t1]; [|done].
  destruct (_load_libc env t1) as [[c|e] t2]; [|done].
  unfold init_cpu_features, try_except, aegis_init, bind, emit, lift.
  by destruct (aegis_init_outcome env).
Qed.

(** ** aegis_init at import *)

Lemma aegis_load_dlopen_only (env : environ) : dlopen_only (Aegis._load_libaegis env).
Proof.
  intros t. unfold Aegis._load_libaegis. rewrite load_loop_run. cbn [snd].
  exists (List.map Some (attempts env (gen_yields (Aegis._candidate_paths env)))).
  by rewrite List.map_map.
Qed.

Lemma pyaegis_load_dlopen_only (env : environ) : dlopen_only (Pyaegis._load_libaegis env).
Proof.
  intros t. pose proof (pyaegis_load_libaegis_run env t) as Hrun. cbv zeta in Hrun.
  rewrite Hrun. destruct (path_exists env _); cbn [snd].
  - by eexists [Some _].
  - exists []. simpl. by rewrite app_nil_r.
Qed.

Lemma count_after_dlopens (p : event -> bool) (t : trace) (names : list (option string)) :
  (forall n, p (Dlopen n) = false) ->
  count p (t ++ List.map Dlopen names) = count p t.
Proof.
  intros Hp. rewrite count_app, count_map_Dlopen by done. lia.
Qed.

Lemma load_and_init_counts (env : environ) (L : M libhandle) (t : trace) :
  dlopen_only L ->
  (forall m t', load_and_init env L t = (Ok m, t') ->
                count is_AegisInit t' = S (count is_AegisInit t)) /\
  (forall e t', load_and_init env L t = (Raise e, t') ->
                count is_AegisInit t' = count is_AegisInit t).
Proof.
  intros HL. rewrite load_and_init_run.
  destruct (HL t) as [n1 H1]. destruct (L t) as [[l|e1] t1]; cbn [snd] in H1; subst t1.
  - destruct (load_libc_run env (t ++ List.map Dlopen n1)) as [n2 H2].
    destruct (_load_libc env _) as [[c|e2] t2]; cbn [snd] in H2; subst t2.
    + split; [|discriminate]. intros m t' [= <- <-].
      rewrite count_app, !count_after_dlopens by done. cbn. lia.
    + split; [discriminate|]. intros e t' [= <- <-].
      by rewrite !count_after_dlopens.
  - split; [discriminate|]. intros e t' [= <- <-]. by rewrite count_after_dlopens.
Qed.

Lemma aegis_body_ignores_init (env : environ) (o : result Z) (t : trace) :
  Aegis.module_body (with_aegis_init o env) t = Aegis.module_body env t.
Proof.
  unfold Aegis.module_body. rewrite !load_and_init_run. reflexivity.
Qed.

Lemma pyaegis_body_ignores_init (env : environ) (o : result Z) (t : trace) :
  Pyaegis.module_body (with_aegis_init o env) t = Pyaegis.module_body env t.
Proof.
  unfold Pyaegis.module_body, bind, Pyaegis.load_cdef. cbn [cdef_outcome with_aegis_init].
  destruct (cdef_outcome env); [done|]. cbn [ret].
  rewrite !load_and_init_run. reflexivity.
Qed.

Lemma alloc_aligned_trace (env : environ) (size alignment : Z) (t : trace) :
  snd (alloc_aligned env size alignment t) = t \/
  snd (alloc_aligned env size alignment t) = t ++ [PosixMemalign alignment size].
Proof.
  rewrite alloc_aligned_run. destruct (_ && _); [by right | by left].
Qed.

Lemma alloc_aligned_count (p : event -> bool) (env : environ) (size alignment : Z) (t : trace) :
  (forall a s, p (PosixMemalign a s) = false) ->
  count p (snd (alloc_aligned env size alignment t)) = count p t.
Proof.
  intros Hp. destruct (alloc_aligned_trace env size alignment t) as [-> | ->]; [done|].
  rewrite count_app. cbn. rewrite Hp. cbn. lia.
Qed.

(** C7: in both loader modules the module body calls aegis_init exactly
    once on a successful import and never when the import fails earlier;
    the outcome of the import does not depend on what aegis_init returns or
    raises; alloc_aligned never calls it. *)
Theorem aegis_init_once_nonfatal
    (body : environ -> M loader_module) (env : environ) (t : trace) :
  body = Aegis.module_body \/ body = Pyaegis.module_body ->
  (forall o, body (with_aegis_init o env) t = body env t) /\
  (forall m t', body env t = (Ok m, t') ->
                count is_AegisInit t' = S (count is_AegisInit t)) /\
  (forall e t', body env t = (Raise e, t') ->
                count is_AegisInit t' = count is_AegisInit t) /\
  (forall size alignment,
      count is_AegisInit (snd (alloc_aligned env size alignment t))
      = count is_AegisInit t).
Proof.
  intros Hbody.
  assert (forall size alignment,
             count is_AegisInit (snd (alloc_aligned env size alignment t))
             = count is_AegisInit t) as Halloc
    by (intros; by apply alloc_aligned_count).
  destruct Hbody as [-> | ->].
  - split; [intros o; apply aegis_body_ignores_init|].
    destruct (load_and_init_counts env (Aegis._load_libaegis env) t
                (aegis_load_dlopen_only env)) as [Hok Hfail].
    by repeat split.
  - split; [intros o; apply pyaegis_body_ignores_init|].
    unfold Pyaegis.module_body, bind, Pyaegis.load_cdef.
    destruct (cdef_outcome env) as [e0|].
    + repeat split; [discriminate | by intros e t' [= <- <-] | done].
    + cbn [ret].
      destruct (load_and_init_counts env (Pyaegis._load_libaegis env) t
                  (pyaegis_load_dlopen_only env)) as [Hok Hfail].
      by repeat split.
Qed.

Lemma aegis_init_once_nonfatal_witness :
  exists m t',
    Aegis.module_body (with_aegis_init (Raise OSError) sample_env) [] = (Ok m, t') /\
    count is_AegisInit t' = 1%nat.
Proof.
  destruct (aegis_init_once_nonfatal Aegis.module_body
              (with_aegis_init (Raise OSError) sample_env) [] (or_introl eq_refl))
    as (_ & Hok & _).
  eexists _, _. split; [reflexivity|]. exact (Hok _ _ eq_refl).
Defined.

(** ** Order of the library candidates *)

Lemma yield_if_yields {A : Type} (o : option A) (rest : gen A) :
  gen_yields (yield_if o rest)
  = (match o with Some a => [a] | None => [] end) ++ gen_yields rest /\
  gen_end (yield_if o rest) = gen_end rest.
Proof. by destruct o. Qed.

Lemma local_paths_ok (env : environ) (root : string) (rels : list string)
    (rest : gen string) :
  (forall rel, In rel rels ->
               exists b, pathlib_exists env (pathlib_join env root rel) = Ok b) ->
  gen_yields (Aegis.local_paths env root rels rest)
  = List.filter (exists_true env) (List.map (pathlib_join env root) rels)
    ++ gen_yields rest /\
  gen_end (Aegis.local_paths env root rels rest) = gen_end rest.
Proof.
  induction rels as [|rel rels IH]; intros Hok; [done|].
  cbn [Aegis.local_paths List.map List.filter]. cbv zeta. unfold exists_true at 1.
  destruct (Hok rel (or_introl eq_refl)) as [b ->].
  destruct IH as [IHy IHe]; [intros r Hr; apply Hok; by right|].
  destruct b; cbn [gen_yields gen_end]; by rewrite IHy, IHe.
Qed.


(** The generator yields the overrides first; the rest depends on
    [here.parents[2]]. *)
Lemma candidate_paths_split (env : environ) :
  let tail :=
    match repo_root env with
    | Raise e => GRaise e
    | Ok root =>
        Aegis.local_paths env root Aegis.local_builds
          (GYield (Aegis._platform_lib_name env) GStop)
    end in
  gen_yields (Aegis._candidate_paths env) = override_candidates env ++ gen_yields tail /\
  gen_end (Aegis._candidate_paths env) = gen_end tail.
Proof.
  cbv zeta. unfold Aegis._candidate_paths, override_candidates, truthy.
  destruct (getenv env "AEGIS_LIB_PATH") as [p|], (getenv env "AEGIS_LIB_DIR") as [d|];
    repeat case_decide; cbn [yield_if gen_yields gen_end app]; done.
Qed.



Lemma aegis_load_raise_inv (env : environ) (t t' : trace) (e : exn) :
  Aegis._load_libaegis env t = (Raise e, t') ->
  (forall x, In x (gen_yields (Aegis._candidate_paths env)) -> loads env x = false) /\
  e = load_failure (Aegis._candidate_paths env) /\
  t' = t ++ List.map dl (gen_yields (Aegis._candidate_paths env)).
Proof.
  unfold Aegis._load_libaegis. rewrite load_loop_run.
  destruct (List.find _ _) eqn:Hf; [discriminate|]. intros [= <- <-].
  rewrite find_none in Hf. by rewrite attempts_all_fail.
Qed.





(** * Further properties *)

(** ** Nonce sequences *)

Lemma le_value_inj (l1 l2 : list byte) :
  length l1 = length l2 -> le_value l1 = le_value l2 -> l1 = l2.
Proof.
  revert l2. induction l1 as [|a l1 IH]; intros [|b l2] Hlen Hval; try done.
  cbn [le_value] in Hval. injection Hlen as Hlen.
  pose proof (byte_to_Z_range a). pose proof (byte_to_Z_range b).
  assert (byte_to_Z a = byte_to_Z b /\ le_value l1 = le_value l2) as [Hab Ht] by lia.
  f_equal; [|by apply IH].
  pose proof (byte_of_to_Z a) as Ha. rewrite Hab, byte_of_to_Z in Ha. congruence.
Qed.

Lemma le_value_zeros (n : nat) : le_value (replicate n x00) = 0.
Proof. induction n as [|n IH]; [done|]. cbn [replicate le_value]. rewrite IH. done. Qed.

Lemma le_value_ffs (n : nat) : le_value (replicate n xff) = 256 ^ Z.of_nat n - 1.
Proof.
  induction n as [|n IH]; [done|]. cbn [replicate le_value].
  rewrite IH, Nat2Z.inj_succ, Z.pow_succ_r by lia.
  change (byte_to_Z xff) with 255. lia.
Qed.

Lemma pow256_pos (n : nat) : 0 < 256 ^ Z.of_nat n.
Proof. apply Z.pow_pos_nonneg; lia. Qed.

Lemma nonce_increment_times_spec (k : nat) (l : list byte) :
  exists l',
    nonce_increment_times k (bytearray l) = Ok (bytearray l') /\
    length l' = length l /\
    le_value l' = (le_value l + Z.of_nat k) mod 256 ^ Z.of_nat (length l).
Proof.
  revert l. induction k as [|k IH]; intros l.
  - exists l. repeat split. rewrite Z.add_0_r, Z.mod_small; [done|].
    apply le_value_range.
  - cbn [nonce_increment_times]. rewrite nonce_increment_spec. cbn [rbind].
    destruct (IH (le_successor l)) as (l' & Hrun & Hlen & Hval).
    exists l'. rewrite le_successor_length in Hlen, Hval.
    repeat split; [done..|].
    rewrite Hval, le_successor_value, Zplus_mod_idemp_l. f_equal. lia.
Qed.

(** X1: calling nonce_increment k times on a writable buffer of length n
    returns normally and adds k modulo 256^n to its little-endian value. *)
Theorem nonce_increment_times_adds (k : nat) (b : Buffer) (Hw : readonly b = false) :
  exists b',
    nonce_increment_times k b = Ok b' /\
    readonly b' = false /\
    len b' = len b /\
    le_value (contents b') = (le_value (contents b) + Z.of_nat k) mod 256 ^ Z.of_nat (len b).
Proof.
  rewrite (writable_bytearray b Hw).
  destruct (nonce_increment_times_spec k (contents b)) as (l' & Hrun & Hlen & Hval).
  exists (bytearray l'). by repeat split.
Qed.

Lemma nonce_increment_times_adds_witness :
  exists b', nonce_increment_times 300 (bytearray [xf0; x00]) = Ok b' /\
             le_value (contents b') = 540.
Proof.
  destruct (nonce_increment_times_adds 300 (bytearray [xf0; x00]) eq_refl)
    as (b' & Hrun & _ & _ & Hval).
  exists b'. split; [exact Hrun|]. rewrite Hval. reflexivity.
Defined.

(** X2: the nonces produced by fewer than 256^n consecutive increments of a
    writable buffer of length n are pairwise different, and the 256^n-th
    increment gives back the starting contents. *)
Theorem nonce_increment_no_repeat (b : Buffer) (Hw : readonly b = false) :
  (forall i j bi bj,
      (i < j)%nat ->
      Z.of_nat j < 256 ^ Z.of_nat (len b) ->
      nonce_increment_times i b = Ok bi ->
      nonce_increment_times j b = Ok bj ->
      contents bi <> contents bj) /\
  nonce_increment_times (Z.to_nat (256 ^ Z.of_nat (len b))) b = Ok b.
Proof.
  rewrite (writable_bytearray b Hw). unfold len. cbn [contents bytearray].
  set (l := contents b). pose proof (pow256_pos (length l)) as HM.
  pose proof (le_value_range l) as Hv. split.
  - intros i j bi bj Hij Hj Hi Hjrun.
    destruct (nonce_increment_times_spec i l) as (li & Hri & Hli & Hvi).
    destruct (nonce_increment_times_spec j l) as (lj & Hrj & Hlj & Hvj).
    rewrite Hri in Hi. rewrite Hrj in Hjrun.
    injection Hi as <-. injection Hjrun as <-. cbn [contents bytearray].
    intros Heq. rewrite Heq, Hvj in Hvi.
    assert ((Z.of_nat j - Z.of_nat i) mod 256 ^ Z.of_nat (length l) = 0) as Hd.
    { replace (Z.of_nat j - Z.of_nat i)
        with ((le_value l + Z.of_nat j) - (le_value l + Z.of_nat i)) by lia.
      rewrite Zminus_mod, Hvi, Z.sub_diag. done. }
    rewrite Z.mod_small in Hd by lia. lia.
  - destruct (nonce_increment_times_spec (Z.to_nat (256 ^ Z.of_nat (length l))) l)
      as (l' & Hrun & Hlen & Hval).
    rewrite Hrun. do 2 f_equal. apply le_value_inj; [done|].
    rewrite Hval, Z2Nat.id by lia.
    rewrite <- (Z.mul_1_l (256 ^ _)) at 1. rewrite Z.mod_add by lia.
    apply Z.mod_small. done.
Qed.

Lemma nonce_increment_no_repeat_witness :
  nonce_increment_times 256 (bytearray [x2a]) = Ok (bytearray [x2a]) /\
  contents (bytearray [x2d]) <> contents (bytearray [xf2]).
Proof.
  destruct (nonce_increment_no_repeat (bytearray [x2a]) eq_refl) as [Hdiff Hper].
  split; [exact Hper|].
  apply (Hdiff 3%nat 200%nat (bytearray [x2d]) (bytearray [xf2]));
    [lia | reflexivity | reflexivity | reflexivity].
Defined.

(** X3: a normal return of nonce_increment on a non-empty buffer has
    changed the contents. *)
Theorem nonce_increment_changes (b b' : Buffer) :
  (0 < len b)%nat ->
  nonce_increment b = Ok b' ->
  contents b' <> contents b.
Proof.
  intros Hlen Hrun Heq. apply nonce_increment_ok_inv in Hrun as [Hc _].
  rewrite Heq in Hc. apply (f_equal le_value) in Hc.
  rewrite le_successor_value in Hc. unfold len in Hlen.
  pose proof (le_value_range (contents b)) as Hv.
  assert (256 <= 256 ^ Z.of_nat (length (contents b))) as HM.
  { change 256 with (256 ^ 1) at 1. apply Z.pow_le_mono_r; lia. }
  destruct (Z.eq_dec (le_value (contents b) + 1) (256 ^ Z.of_nat (length (contents b))))
    as [Hmax|Hmax].
  - rewrite Hmax, Z.mod_same in Hc by lia. lia.
  - rewrite Z.mod_small in Hc by lia. lia.
Qed.

Lemma nonce_increment_changes_witness :
  contents (bytearray [x00; x00]) <> contents (bytearray [xff; xff]).
Proof.
  apply (nonce_increment_changes (bytearray [xff; xff]) (bytearray [x00; x00]));
    [unfold len; simpl; lia | reflexivity].
Defined.

(** X4: a normal return of nonce_increment leaves the all-zero buffer
    exactly when every byte was 0xFF: the wrap-around is the only way to
    reach zero. *)
Theorem nonce_increment_wraps_iff (b b' : Buffer) :
  nonce_increment b = Ok b' ->
  (contents b' = replicate (len b) x00 <-> contents b = replicate (len b) xff).
Proof.
  intros Hrun. apply nonce_increment_ok_inv in Hrun as [Hc _]. rewrite Hc.
  unfold len. set (l := contents b). split.
  - intros Hz. apply le_value_inj; [by rewrite length_replicate|].
    apply (f_equal le_value) in Hz.
    rewrite le_successor_value, le_value_zeros in Hz. rewrite le_value_ffs.
    pose proof (le_value_range l) as Hv. pose proof (pow256_pos (length l)) as HM.
    destruct (Z.eq_dec (le_value l + 1) (256 ^ Z.of_nat (length l))) as [|Hne]; [lia|].
    rewrite Z.mod_small in Hz by lia. lia.
  - intros Hff. apply le_successor_all_ff. intros j y Hy. rewrite Hff in Hy.
    by apply lookup_replicate in Hy as [-> _].
Qed.

Lemma nonce_increment_wraps_iff_witness :
  contents (bytearray [x00; x00; x00]) = replicate 3 x00 <->
  contents (bytearray [xff; xff; xff]) = replicate 3 xff.
Proof.
  exact (nonce_increment_wraps_iff (bytearray [xff; xff; xff])
           (bytearray [x00; x00; x00]) eq_refl).
Defined.

(** ** Read-only buffers and composition with wipe *)

(** X5: on a read-only buffer nonce_increment and wipe raise TypeError as
    soon as there is a byte to write; an empty read-only buffer is accepted
    and returned as it is. *)
Theorem readonly_buffer_outcome (b : Buffer) (Hro : readonly b = true) :
  nonce_increment b = (if decide (len b = 0%nat) then Ok b else Raise TypeError) /\
  wipe b = (if decide (len b = 0%nat) then Ok b else Raise TypeError).
Proof.
  destruct b as [l ro]. simpl in Hro. subst ro. unfold len. cbn [contents].
  destruct l as [|x l].
  - split; reflexivity.
  - change (MkBuffer (x :: l) true) with (bytes (x :: l)).
    destruct (readonly_nonempty_raises l x) as [-> ->].
    split; by case_decide.
Qed.

Lemma readonly_buffer_outcome_witness :
  nonce_increment (bytes [x00; x01]) = Raise TypeError /\
  wipe (bytes [x00; x01]) = Raise TypeError.
Proof.
  exact (readonly_buffer_outcome (bytes [x00; x01]) eq_refl).
Defined.

(** X6: on a writable buffer, wiping after an increment gives the same
    result as wiping alone, and incrementing a wiped buffer of non-zero
    length gives 0x01 followed by zeros (the value 1). *)
Theorem wipe_nonce_increment_compose (b : Buffer) (Hw : readonly b = false) :
  (let/r b1 := nonce_increment b in wipe b1) = wipe b /\
  (let/r b0 := wipe b in nonce_increment b0)
  = Ok (bytearray (match len b with
                   | O => []
                   | S n => x01 :: replicate n x00
                   end)).
Proof.
  rewrite (writable_bytearray b Hw). unfold len. cbn [contents bytearray].
  rewrite nonce_increment_spec, !wipe_spec. cbn [rbind].
  rewrite wipe_spec, nonce_increment_spec, le_successor_length. split; [done|].
  by destruct (length (contents b)).
Qed.

Lemma wipe_nonce_increment_compose_witness :
  (let/r b0 := wipe (bytearray [xde; xad; xbe]) in nonce_increment b0)
  = Ok (bytearray [x01; x00; x00]).
Proof.
  exact (proj2 (wipe_nonce_increment_compose (bytearray [xde; xad; xbe]) eq_refl)).
Defined.

(** ** More on new_aligned_struct *)

(** X7: every alignment that is neither 0 nor a power of two, every
    negative one included, is refused with ValueError before the size of
    the type is looked up or any memory requested; for a power of two and
    a type whose size ffi.sizeof returns, the call never raises
    ValueError. *)
Theorem new_aligned_struct_guard (env : environ) (ctype : string) (a : Z) (t : trace) :
  (~ (a = 0 \/ is_pow2 a) -> new_aligned_struct env ctype a t = (Raise ValueError, t)) /\
  (a < 0 -> new_aligned_struct env ctype a t = (Raise ValueError, t)) /\
  (is_pow2 a -> forall s, ffi_sizeof env ctype = Ok s ->
     fst (new_aligned_struct env ctype a t) <> Raise ValueError).
Proof.
  assert (~ (a = 0 \/ is_pow2 a) -> new_aligned_struct env ctype a t = (Raise ValueError, t))
    as Hrej.
  { intros Hn. apply new_aligned_struct_rejects. by rewrite pow2_guard_iff. }
  split; [exact Hrej|]. split.
  - intros Hneg. apply Hrej. intros [-> | (k & Hk & ->)]; [lia|].
    pose proof (Z.pow_pos_nonneg 2 k). lia.
  - intros Hp s Hs. rewrite new_aligned_struct_run by (by apply pow2_guard_passes).
    rewrite Hs. cbv zeta. destruct Hp as (k & Hk & ->).
    assert (0 < 2 ^ k) by (apply Z.pow_pos_nonneg; lia).
    destruct (Z.ltb_spec (Z.of_N s + 2 ^ k - 1) 0); [lia|].
    destruct (_ <? _); [done|]. destruct (heap_alloc env _); [|done].
    by destruct (ffi_pointer_ok env ctype).
Qed.

Lemma new_aligned_struct_guard_witness :
  new_aligned_struct sample_env "aegis128l_state" 24 [] = (Raise ValueError, []) /\
  new_aligned_struct sample_env "aegis128l_state" (-16) [] = (Raise ValueError, []) /\
  fst (new_aligned_struct sample_env "aegis128l_state" 16 []) <> Raise ValueError.
Proof.
  destruct (new_aligned_struct_guard sample_env "aegis128l_state" 24 [])
    as (H24 & _ & _).
  destruct (new_aligned_struct_guard sample_env "aegis128l_state" (-16) [])
    as (_ & Hneg & _).
  destruct (new_aligned_struct_guard sample_env "aegis128l_state" 16 [])
    as (_ & _ & H16).
  split; [|split].
  - apply H24. intros Hp. apply pow2_guard_iff in Hp. discriminate Hp.
  - apply Hneg. lia.
  - apply (H16 ltac:(exists 4; split; [lia | reflexivity]) 256%N). reflexivity.
Defined.

(** X8: for a power-of-two alignment a, the pointer of a successful call is
    the lowest multiple of a at or above the start of the owner: its
    address is a multiple of a, it lies less than a bytes above the start,
    no address in between is a multiple of a, and when the owner itself
    starts on a multiple of a the pointer is its start. *)
Theorem new_aligned_struct_least
    (env : environ) (ctype : string) (a : Z) (t t' : trace) (ptr owner : cdata) :
  is_pow2 a ->
  new_aligned_struct env ctype a t = (Ok (ptr, owner), t') ->
  cd_addr ptr mod a = 0 /\
  cd_addr owner <= cd_addr ptr < cd_addr owner + a /\
  (forall x, cd_addr owner <= x < cd_addr ptr -> x mod a <> 0) /\
  (cd_addr owner mod a = 0 -> cd_addr ptr = cd_addr owner).
Proof.
  intros Hp Hrun.
  rewrite new_aligned_struct_run in Hrun by (by apply pow2_guard_passes).
  destruct Hp as (k & Hk & ->).
  destruct (ffi_sizeof env ctype) as [s|]; [|discriminate]. cbv zeta in Hrun.
  destruct (Z.of_N s + 2 ^ k - 1 <? 0); [discriminate|].
  destruct (Z.ltb_spec ssize_max (Z.of_N s + 2 ^ k - 1)) as [|Hn]; [discriminate|].
  destruct (heap_alloc env _) as [addr|]; [|discriminate].
  destruct (ffi_pointer_ok env ctype); [|discriminate].
  injection Hrun as <- <- _. cbn [cd_addr] in *.
  destruct (aligned_offset addr k) as [Hoff Hal].
  { split; [done|]. apply (pow2_below_ssize k (Z.of_N s)); lia. }
  cbv zeta in Hoff, Hal. set (offset := Z.land _ _) in *.
  assert (0 < 2 ^ k) as Hpos by (apply Z.pow_pos_nonneg; lia).
  assert (forall x, addr <= x < addr + offset -> x mod 2 ^ k <> 0) as Hleast.
  { intros x Hx Hx0.
    assert ((addr + offset - x) mod 2 ^ k = 0) as Hd
      by (by rewrite Zminus_mod, Hal, Hx0).
    rewrite Z.mod_small in Hd by lia. lia. }
  split; [exact Hal|]. split; [lia|]. split; [exact Hleast|].
  intros Hbase. destruct (Z.eq_dec offset 0) as [->|Hne]; [lia|].
  exfalso. apply (Hleast addr); [lia | done].
Qed.

Lemma new_aligned_struct_least_witness :
  exists ptr owner t',
    new_aligned_struct sample_env "aegis128l_state" 64 [] = (Ok (ptr, owner), t') /\
    cd_addr ptr mod 64 = 0 /\
    cd_addr owner <= cd_addr ptr < cd_addr owner + 64.
Proof.
  eexists _, _, _. split; [reflexivity|].
  destruct (new_aligned_struct_least sample_env "aegis128l_state" 64 [] _ _ _
              ltac:(exists 6; split; [lia | reflexivity]) eq_refl)
    as (Hal & Hrange & _).
  split; [exact Hal | exact Hrange].
Defined.

(** X9: for a power-of-two alignment the call fails in four ways only, none
    of them caught: with what ffi.sizeof raises and with OverflowError when
    size + alignment - 1 exceeds Py_ssize_t, both before any memory is
    requested; with MemoryError when the allocator refuses the single
    request; and with CDefError from the cast when "<ctype> *" is not a
    type, after the region has been allocated. *)
Theorem new_aligned_struct_failures
    (env : environ) (ctype : string) (a : Z) (t t' : trace) (e : exn) :
  is_pow2 a ->
  new_aligned_struct env ctype a t = (Raise e, t') ->
  (ffi_sizeof env ctype = Raise e /\ t' = t) \/
  (exists s, ffi_sizeof env ctype = Ok s /\
     ((e = OverflowError /\ ssize_max < Z.of_N s + a - 1 /\ t' = t) \/
      (e = MemoryError /\ heap_alloc env (Z.of_N s + a - 1) = None /\
       t' = t ++ [FfiNew (Z.of_N s + a - 1)]) \/
      (e = CDefError /\ ffi_pointer_ok env ctype = false /\
       (exists addr, heap_alloc env (Z.of_N s + a - 1) = Some addr) /\
       t' = t ++ [FfiNew (Z.of_N s + a - 1)]))).
Proof.
  intros Hp Hrun. rewrite new_aligned_struct_run in Hrun by (by apply pow2_guard_passes).
  destruct Hp as (k & Hk & ->).
  assert (0 < 2 ^ k) by (apply Z.pow_pos_nonneg; lia).
  destruct (ffi_sizeof env ctype) as [s|e0]; [|left; by injection Hrun as <- <-].
  right. exists s. split; [done|]. cbv zeta in Hrun.
  destruct (Z.ltb_spec (Z.of_N s + 2 ^ k - 1) 0); [lia|].
  destruct (Z.ltb_spec ssize_max (Z.of_N s + 2 ^ k - 1)).
  - left. by injection Hrun as <- <-.
  - right. destruct (heap_alloc env _) as [addr|].
    + right. destruct (ffi_pointer_ok env ctype); [discriminate|].
      injection Hrun as <- <-. repeat split; eauto.
    + left. by injection Hrun as <- <-.
Qed.

Lemma new_aligned_struct_failures_witness :
  new_aligned_struct sample_env "uint8_t[16]" 16 [] = (Raise CDefError, [FfiNew 31]) /\
  ffi_pointer_ok sample_env "uint8_t[16]" = false.
Proof.
  split; [reflexivity|].
  destruct (new_aligned_struct_failures sample_env "uint8_t[16]" 16 []
              [FfiNew 31] CDefError
              ltac:(exists 4; split; [lia | reflexivity]) eq_refl)
    as [[Hs _] | (s & _ & [(He & _) | [(He & _) | (_ & Hp & _)]])].
  - discriminate Hs.
  - discriminate He.
  - discriminate He.
  - exact Hp.
Defined.

(** ** Loading libc *)







(** ** Platform library names *)

(** X11: each [_platform_lib_name] returns one of libaegis.so,
    libaegis.dylib, aegis.dll, and the two files' versions give the same
    name unless sys.platform starts with "linux" while os.name is "nt"
    (then aegis/_loader.py says libaegis.so and pyaegis/_loader.py
    aegis.dll). *)
Theorem platform_lib_name_agree (env : environ) :
  (Aegis._platform_lib_name env = "libaegis.so" \/
   Aegis._platform_lib_name env = "libaegis.dylib" \/
   Aegis._platform_lib_name env = "aegis.dll") /\
  (Pyaegis._platform_lib_name env = "libaegis.so" \/
   Pyaegis._platform_lib_name env = "libaegis.dylib" \/
   Pyaegis._platform_lib_name env = "aegis.dll") /\
  (Aegis._platform_lib_name env = Pyaegis._platform_lib_name env <->
   ~ (String.prefix "linux" (sys_platform env) = true /\ os_name env = "nt")).
Proof.
  unfold Aegis._platform_lib_name, Pyaegis._platform_lib_name.
  destruct (String.prefix "linux" (sys_platform env)) eqn:Hlinux.
  - assert (sys_platform env <> "darwin") as Hnd
      by (intros Hd; rewrite Hd in Hlinux; discriminate Hlinux).
    repeat case_decide; try done; (split; [tauto|]); (split; [tauto|]);
      split; try done; try tauto.
  - repeat case_decide; (split; [tauto|]); (split; [tauto|]);
      split; try done; intros _ [? _]; done.
Qed.

(** ** Candidates of aegis/_loader.py *)

Lemma attempts_bounds (env : environ) (cands : list string) :
  cands <> [] ->
  (1 <= length (attempts env cands) <= length cands)%nat.
Proof.
  induction cands as [|c rest IH]; [done|]. intros _. cbn [attempts].
  destruct (loads env c); [simpl; lia|].
  destruct rest as [|c' rest']; [simpl; lia|].
  cbn [length] in *. specialize (IH ltac:(done)). lia.
Qed.

Lemma find_some_split (env : environ) (cands : list string) (c : string) :
  List.find (loads env) cands = Some c ->
  exists pre post,
    cands = pre ++ c :: post /\
    (forall x, In x pre -> loads env x = false) /\
    loads env c = true.
Proof.
  induction cands as [|x rest IH]; [discriminate|]. cbn [List.find].
  destruct (loads env x) eqn:Hx.
  - intros [= <-]. exists [], rest. by repeat split.
  - intros Hf. destruct (IH Hf) as (pre & post & -> & Hpre & Hc).
    exists (x :: pre), post. repeat split; [|done].
    intros y [<-|Hy]; [done | by apply Hpre].
Qed.

Lemma local_paths_shape (env : environ) (root : string) (rels : list string)
    (rest : gen string) :
  exists found,
    (length found <= length rels)%nat /\
    ((gen_yields (Aegis.local_paths env root rels rest) = found ++ gen_yields rest /\
      gen_end (Aegis.local_paths env root rels rest) = gen_end rest) \/
     (gen_yields (Aegis.local_paths env root rels rest) = found /\
      exists e, gen_end (Aegis.local_paths env root rels rest) = Some e)).
Proof.
  induction rels as [|rel rels IH]; cbn [Aegis.local_paths]; cbv zeta.
  - exists []. split; [done|]. by left.
  - destruct IH as (found & Hlen & IH).
    destruct (pathlib_exists env _) as [[|]|e].
    + exists (pathlib_join env root rel :: found). cbn [length gen_yields gen_end].
      split; [lia|]. destruct IH as [[-> ->] | [-> He]]; [by left | by right].
    + exists found. cbn [length]. split; [lia | exact IH].
    + exists []. cbn [length]. split; [lia|]. right. split; [done | by exists e].
Qed.

Lemma override_candidates_length (env : environ) :
  (length (override_candidates env) <= 2)%nat.
Proof.
  unfold override_candidates.
  destruct (getenv env "AEGIS_LIB_PATH"), (getenv env "AEGIS_LIB_DIR");
    repeat case_decide; simpl; lia.
Qed.

Lemma candidate_paths_last (env : environ) :
  (length (gen_yields (Aegis._candidate_paths env)) <= 7)%nat /\
  (gen_end (Aegis._candidate_paths env) = None ->
   exists init,
     gen_yields (Aegis._candidate_paths env)
     = init ++ [Aegis._platform_lib_name env] /\
     (length init <= 6)%nat).
Proof.
  destruct (candidate_paths_split env) as [Hy He]. cbv zeta in Hy, He.
  pose proof (override_candidates_length env) as Ho. rewrite Hy, He, length_app.
  destruct (repo_root env) as [root|e]; cbn [gen_yields gen_end length].
  - destruct (local_paths_shape env root Aegis.local_builds
                (GYield (Aegis._platform_lib_name env) GStop))
      as (found & Hlen & [[-> ->] | [-> (e & ->)]]);
      cbn [Aegis.local_builds length gen_yields gen_end] in *.
    + split; [rewrite length_app; simpl; lia|]. intros _.
      exists (override_candidates env ++ found).
      split; [by rewrite <- app_assoc | rewrite length_app; lia].
    + split; [lia | discriminate].
  - split; [lia | discriminate].
Qed.

Lemma attempts_length (env : environ) (cands : list string) :
  (length (attempts env cands) <= length cands)%nat.
Proof.
  induction cands as [|c rest IH]; [done|]. cbn [attempts].
  destruct (loads env c); simpl in *; lia.
Qed.

(** X12: [_load_libaegis] of aegis/_loader.py calls dlopen at most seven
    times.  When locating the local builds raises nothing, the candidates
    end with the bare platform library name, with at most six before it,
    and dlopen is called at least once. *)
Theorem candidate_paths_shape (env : environ) (t : trace) :
  (gen_end (Aegis._candidate_paths env) = None ->
   exists init,
     gen_yields (Aegis._candidate_paths env)
     = init ++ [Aegis._platform_lib_name env] /\
     (length init <= 6)%nat) /\
  (exists tried,
     snd (Aegis._load_libaegis env t) = t ++ List.map dl tried /\
     (length tried <= 7)%nat /\
     (gen_end (Aegis._candidate_paths env) = None -> (1 <= length tried)%nat)).
Proof.
  destruct (candidate_paths_last env) as [Hmax Hlast].
  split; [exact Hlast|].
  unfold Aegis._load_libaegis. rewrite load_loop_run. cbn [snd].
  exists (attempts env (gen_yields (Aegis._candidate_paths env))). split; [done|].
  pose proof (attempts_length env (gen_yields (Aegis._candidate_paths env))) as Hle.
  split; [lia|]. intros Hend. destruct (Hlast Hend) as (init & Hc & _).
  apply attempts_bounds. rewrite Hc. by destruct init.
Qed.

Lemma candidate_paths_shape_witness :
  exists init,
    gen_yields (Aegis._candidate_paths sample_env) = init ++ ["libaegis.so"] /\
    (length init <= 6)%nat.
Proof.
  exact (proj1 (candidate_paths_shape sample_env []) eq_refl).
Defined.

(** X13: when locating the local builds raises nothing and the bare
    platform library name loads (the library is installed system-wide),
    [_load_libaegis] of aegis/_loader.py returns a library, whatever the
    variables are and whichever local builds exist. *)
Theorem load_libaegis_system_fallback (env : environ) (t : trace) (root : string) :
  repo_root env = Ok root ->
  (forall rel, In rel Aegis.local_builds ->
               exists b, pathlib_exists env (pathlib_join env root rel) = Ok b) ->
  loads env (Aegis._platform_lib_name env) = true ->
  exists h t', Aegis._load_libaegis env t = (Ok h, t').
Proof.
  intros Hroot Hok Hsys. unfold Aegis._load_libaegis. rewrite load_loop_run.
  destruct (List.find _ _) as [c|] eqn:Hf; [eauto|].
  exfalso. rewrite find_none in Hf.
  rewrite (Hf (Aegis._platform_lib_name env)) in Hsys; [done|].
  destruct (candidate_paths_split env) as [Hy _]. cbv zeta in Hy.
  rewrite Hroot in Hy.
  destruct (local_paths_ok env root Aegis.local_builds
              (GYield (Aegis._platform_lib_name env) GStop) Hok) as [Hly _].
  rewrite Hy, Hly. apply in_or_app. right. apply in_or_app. right. by left.
Qed.

Lemma load_libaegis_system_fallback_witness :
  exists h t',
    Aegis._load_libaegis
      (world (fun _ => None) (fun _ => false)
             (fun p => bool_decide (p = "libaegis.so"))) [] = (Ok h, t').
Proof.
  apply (load_libaegis_system_fallback _ [] "/repo"); [reflexivity | | reflexivity].
  intros rel _. by exists false.
Defined.

(** X14: a non-empty AEGIS_LIB_PATH that loads is what [_load_libaegis] of
    aegis/_loader.py returns, after a single dlopen: no other candidate is
    tried. *)
Theorem load_libaegis_override (env : environ) (t : trace) (p : string) :
  getenv env "AEGIS_LIB_PATH" = Some p ->
  p <> "" ->
  loads env p = true ->
  Aegis._load_libaegis env t = (Ok (LibHandle (Some p)), t ++ [dl p]).
Proof.
  intros Hp Hne Hl. unfold Aegis._load_libaegis. rewrite load_loop_run.
  unfold Aegis._candidate_paths, truthy. rewrite Hp.
  destruct (decide (p = "")); [done|].
  cbn [yield_if gen_yields List.find attempts]. by rewrite Hl.
Qed.

Lemma load_libaegis_override_witness :
  Aegis._load_libaegis unbundled_env []
  = (Ok (LibHandle (Some "/opt/lib/libaegis.so")), [dl "/opt/lib/libaegis.so"]).
Proof.
  apply (load_libaegis_override unbundled_env [] "/opt/lib/libaegis.so");
    [reflexivity | discriminate | reflexivity].
Defined.

(** X15: whatever [_load_libaegis] of aegis/_loader.py returns is one of
    the yielded candidates, it loads, every candidate yielded before it has
    failed, and dlopen was called on exactly those and it.  Whatever it
    raises comes after dlopen was called, in order, on every candidate
    yielded, all of which failed: the exception that stopped the generator
    or, when the generator returned, OSError. *)
Theorem load_libaegis_result (env : environ) (t : trace) :
  (forall h t', Aegis._load_libaegis env t = (Ok h, t') ->
     exists pre c post,
       gen_yields (Aegis._candidate_paths env) = pre ++ c :: post /\
       (forall x, In x pre -> loads env x = false) /\
       loads env c = true /\
       h = LibHandle (Some c) /\
       t' = t ++ List.map dl (pre ++ [c])) /\
  (forall e t', Aegis._load_libaegis env t = (Raise e, t') ->
     (forall x, In x (gen_yields (Aegis._candidate_paths env)) -> loads env x = false) /\
     t' = t ++ List.map dl (gen_yields (Aegis._candidate_paths env)) /\
     (gen_end (Aegis._candidate_paths env) = Some e \/
      gen_end (Aegis._candidate_paths env) = None /\ e = OSError)).
Proof.
  split.
  - unfold Aegis._load_libaegis. rewrite load_loop_run.
    intros h t'. destruct (List.find _ _) as [c|] eqn:Hf; [|discriminate].
    intros [= <- <-]. destruct (find_some_split env _ c Hf) as (pre & post & Hc & Hpre & Hl).
    exists pre, c, post. repeat split; try done.
    rewrite Hc. by destruct (find_first env pre post c Hpre Hl) as [_ ->].
  - intros e t' Hrun. apply aegis_load_raise_inv in Hrun as (Hall & -> & ->).
    split; [done|]. split; [done|]. unfold load_failure.
    destruct (gen_end _); [by left | by right].
Qed.

Lemma load_libaegis_result_witness :
  exists pre post,
    gen_yields (Aegis._candidate_paths sample_env)
    = pre ++ "/repo/zig-out/lib/libaegis.so" :: post /\
    (forall x, In x pre -> loads sample_env x = false).
Proof.
  destruct (load_libaegis_result sample_env []) as [Hok _].
  destruct (Hok (LibHandle (Some "/repo/zig-out/lib/libaegis.so"))
                [dl "/opt/aegis/libaegis.so"; dl "/repo/build/libaegis.so";
                 dl "/repo/zig-out/lib/libaegis.so"] eq_refl)
    as (pre & c & post & Hc & Hpre & _ & Hh & _).
  injection Hh as <-. exists pre, post. split; [exact Hc | exact Hpre].
Defined.

(** ** Import of the loader modules *)










(** ** hx *)

Lemma hex_digit_length (n : N) : String.length (hex_digit n) = 1%nat.
Proof.
  destruct n as [|p]; [done|].
  do 5 (try destruct p as [p|p|]); reflexivity.
Qed.

Lemma string_length_app (s1 s2 : string) :
  String.length (s1 +:+ s2) = (String.length s1 + String.length s2)%nat.
Proof. induction s1 as [|c s1 IH]; [done|]. simpl. by rewrite IH. Qed.

Lemma string_app_assoc (s1 s2 s3 : string) :
  (s1 +:+ s2) +:+ s3 = s1 +:+ (s2 +:+ s3).
Proof.
  induction s1 as [|c s1 IH]; [done|].
  change (String c ((s1 +:+ s2) +:+ s3) = String c (s1 +:+ (s2 +:+ s3))).
  by rewrite IH.
Qed.

Lemma bytes_hex_length (data : list byte) :
  String.length (bytes_hex data) = (2 * length data)%nat.
Proof.
  induction data as [|b rest IH]; [done|]. cbn [bytes_hex length].
  rewrite !string_length_app, !hex_digit_length, IH. lia.
Qed.

Lemma bytes_hex_app (d1 d2 : list byte) :
  bytes_hex (d1 ++ d2) = bytes_hex d1 +:+ bytes_hex d2.
Proof.
  induction d1 as [|b d1 IH]; [done|]. cbn [app bytes_hex].
  rewrite IH. by rewrite !string_app_assoc.
Qed.

Lemma prefix_app (s1 s2 : string) : String.prefix s1 (s1 +:+ s2) = true.
Proof.
  induction s1 as [|c s1 IH]; [by destruct s2|].
  change (String.prefix (String c s1) (String c (s1 +:+ s2)) = true).
  cbn [String.prefix]. destruct (Ascii.ascii_dec c c); [exact IH | done].
Qed.

Lemma slice_to_take (data : list byte) (stop : Z) :
  exists n, slice_to data stop = take n data /\
            (0 <= stop -> n = Z.to_nat stop) /\
            (stop < 0 -> n = Z.to_nat (Z.of_nat (length data) + stop)).
Proof.
  unfold slice_to. destruct (Z.ltb_spec stop 0); eexists; (split; [reflexivity|]); lia.
Qed.

Lemma hex_digit_char (n : N) : exists c, hex_digit n = String c "".
Proof.
  destruct n as [|p]; [by eexists|].
  do 5 (try destruct p as [p|p|]); by eexists.
Qed.

Lemma byte_hex_alphabet (x : byte) :
  hex_digit (Byte.to_N x / 16) +:+ hex_digit (Byte.to_N x mod 16)
  = String.substring (N.to_nat (Byte.to_N x / 16)) 1 "0123456789abcdef"
    +:+ String.substring (N.to_nat (Byte.to_N x mod 16)) 1 "0123456789abcdef".
Proof. destruct x; reflexivity. Qed.

Lemma bytes_hex_at (data : list byte) (i : nat) (x : byte) :
  data !! i = Some x ->
  String.substring (2 * i) 2 (bytes_hex data)
  = hex_digit (Byte.to_N x / 16) +:+ hex_digit (Byte.to_N x mod 16).
Proof.
  revert i. induction data as [|y rest IH]; intros i Hi; [done|].
  cbn [bytes_hex].
  destruct (hex_digit_char (Byte.to_N y / 16)) as [c1 Hc1].
  destruct (hex_digit_char (Byte.to_N y mod 16)) as [c2 Hc2].
  destruct i as [|i].
  - injection Hi as ->. rewrite Hc1, Hc2.
    change (String.substring 0 2 (String c1 (String c2 (bytes_hex rest)))
            = String c1 (String c2 "")).
    cbn [String.substring]. by destruct (bytes_hex rest).
  - replace (2 * S i)%nat with (S (S (2 * i))) by lia. rewrite Hc1, Hc2.
    change (String.substring (S (S (2 * i))) 2 (String c1 (String c2 (bytes_hex rest)))
            = hex_digit (Byte.to_N x / 16) +:+ hex_digit (Byte.to_N x mod 16)).
    cbn [String.substring]. by apply IH.
Qed.

(** X19: hx prints two lower-case hexadecimal digits per byte, the high
    half first: the two characters at position 2i are the digits of byte i
    taken from "0123456789abcdef".  With a limit it prints a prefix of what
    it prints without one: for a limit k >= 0 the first min(k, len) bytes,
    for a negative limit all but the last -k bytes (nothing when
    -k >= len). *)
Theorem hx_limit (b : Buffer) (k : Z) :
  String.length (hx b None) = (2 * len b)%nat /\
  (forall (i : nat) (x : byte), contents b !! i = Some x ->
     String.substring (2 * i) 2 (hx b None)
     = String.substring (N.to_nat (Byte.to_N x / 16)) 1 "0123456789abcdef"
       +:+ String.substring (N.to_nat (Byte.to_N x mod 16)) 1 "0123456789abcdef") /\
  String.prefix (hx b (Some k)) (hx b None) = true /\
  (0 <= k -> String.length (hx b (Some k)) = (2 * Nat.min (Z.to_nat k) (len b))%nat) /\
  (k < 0 -> String.length (hx b (Some k))
            = (2 * (len b - Z.to_nat (- k)))%nat).
Proof.
  unfold hx, len. cbv zeta. set (data := contents b).
  destruct (slice_to_take data k) as (n & -> & Hpos & Hneg).
  split; [apply bytes_hex_length|]. split.
  { intros i x Hi. rewrite <- byte_hex_alphabet. by apply bytes_hex_at. }
  split.
  - rewrite <- (take_drop n data) at 2. rewrite bytes_hex_app. apply prefix_app.
  - rewrite bytes_hex_length, length_take. split; intros Hk.
    + rewrite (Hpos Hk). done.
    + rewrite (Hneg Hk). lia.
Qed.

Lemma hx_limit_witness :
  String.substring 4 2 (hx (bytearray [x00; xff; x1a; xb2]) None) = "1a" /\
  String.length (hx (bytearray [x00; xff; x1a; xb2]) (Some 3)) = 6%nat /\
  String.length (hx (bytearray [x00; xff; x1a; xb2]) (Some (-3))) = 2%nat.
Proof.
  destruct (hx_limit (bytearray [x00; xff; x1a; xb2]) 3) as (_ & Hat & _ & Hpos & _).
  destruct (hx_limit (bytearray [x00; xff; x1a; xb2]) (-3)) as (_ & _ & _ & _ & Hneg).
  split; [exact (Hat 2%nat x1a eq_refl)|].
  split; [apply Hpos | apply Hneg]; lia.
Defined.

(** ** The build hook *)

Lemma symlink_to_frame (env : hook_env) (link : string) (st st' : hook_state)
    (r : hresult unit) :
  symlink_to env link st = (r, st') ->
  build_data st' = build_data st /\
  hook_log st' = hook_log st /\
  created st ⊆ created st' /\
  (forall u, r = Done u -> link ∈ created st').
Proof.
  unfold symlink_to. destruct (exists_now env st link).
  - intros [= <- <-]. repeat split; [done | discriminate].
  - destruct (symlink_ok env); intros [= <- <-]; cbn [add_created build_data hook_log created].
    + repeat split; [apply union_subseteq_r|]. intros _ _.
      apply elem_of_union_l. by apply elem_of_singleton.
    + repeat split; [done | discriminate].
Qed.

Lemma symlink_all_frame (env : hook_env) (build_dir libaegis_dir : string)
    (ress : list string) (st st' : hook_state) (r : hresult unit) :
  symlink_all env build_dir libaegis_dir ress st = (r, st') ->
  build_data st' = build_data st /\
  hook_log st' = hook_log st /\
  created st ⊆ created st' /\
  (forall u, r = Done u ->
             forall res, In res ress -> pjoin env build_dir res ∈ created st').
Proof.
  revert st. induction ress as [|res rest IH]; intros st; cbn [symlink_all].
  - intros [= <- <-]. repeat split; [done|]. intros u _ res [].
  - destruct (symlink_to env _ st) as [[u0|e] st1] eqn:Hs.
    + destruct (symlink_to_frame env _ st st1 _ Hs) as (Hb1 & Hl1 & Hc1 & Hin1).
      intros Hrest. destruct (IH st1 Hrest) as (Hb & Hl & Hc & Hin).
      repeat split; [congruence | congruence | by transitivity (created st1)|].
      intros u Hu res' [<- | Hres]; [|by apply (Hin u)].
      apply Hc. by apply (Hin1 u0).
    + destruct (symlink_to_frame env _ st st1 _ Hs) as (Hb1 & Hl1 & Hc1 & _).
      intros [= <- <-]. repeat split; [done..|]. discriminate.
Qed.

(** What a successful run on the wheel target went through. *)
Lemma initialize_done_inv (env : hook_env) (st st' : hook_state) :
  target_name env = "wheel" ->
  initialize env st = (Done tt, st') ->
  let libaegis_dir := pjoin env (hook_root env) "libaegis" in
  let build_dir := pjoin env (hook_cwd env) "libaegis-build" in
  let lib_dir := pjoin env (pjoin env build_dir "zig-out") "lib" in
  exists text names name st2 bd,
    which_zig env = true /\
    exists_now env st (pjoin env libaegis_dir "build.zig") = true /\
    mkdir_ok env = true /\
    build_zig_text env = Some text /\
    write_ok env = true /\
    symlink_all env build_dir libaegis_dir ["build.zig.zon"; "src"]
      (add_written (pjoin env build_dir "build.zig")
         (str_replace env text ".linkage = .static," ".linkage = .dynamic,")
         (add_created build_dir st))
    = (Done tt, st2) /\
    zig_build env = ZigOk /\
    lib_listing env = Some names /\
    select_lib names = Some name /\
    lib_exists env (pjoin env lib_dir name) = true /\
    force_include (pjoin env lib_dir name) (pjoin env "build" name) (build_data st2)
    = Done bd /\
    build_data st' = bd /\
    created st' = created st2 /\
    hook_log st'
    = hook_log st2
      ++ [DisplayInfo "[aegis] Building libaegis dynamic library with Zig...";
          RunZig build_dir;
          DisplayInfo ("[aegis] Added dynamic library to wheel: "
                         +:+ pjoin env "build" name)].
Proof.
  intros Ht. unfold initialize. rewrite bool_decide_true by done. cbn [negb].
  destruct (which_zig env); [|discriminate]. cbn [negb]. cbv zeta.
  destruct (exists_now env st _); [|discriminate]. cbn [negb].
  destruct (mkdir_ok env); [|discriminate]. cbn [negb].
  destruct (build_zig_text env) as [text|]; [|discriminate].
  destruct (write_ok env); [|discriminate]. cbn [negb].
  destruct (symlink_all env _ _ _ _) as [[[]|e] st2] eqn:Hsym; [|discriminate].
  destruct (zig_build env); [|discriminate..].
  destruct (lib_listing env) as [names|]; [|discriminate].
  destruct (select_lib names) as [name|] eqn:Hsel; [|discriminate].
  destruct (lib_exists env _) eqn:Hex; [|discriminate]. cbn [negb].
  cbn [build_data add_event].
  destruct (force_include _ _ _) as [bd|e] eqn:Hfi; [|discriminate].
  intros [= <-]. exists text, names, name, st2, bd.
  cbn. rewrite <- !app_assoc. repeat split; done.
Qed.

Lemma select_lib_split (names : list string) (name : string) :
  select_lib names = Some name <->
  exists pre post,
    names = pre ++ name :: post /\
    is_dynamic_lib name = true /\
    (forall x, In x pre -> is_dynamic_lib x = false).
Proof.
  split.
  - induction names as [|x rest IH]; [discriminate|]. cbn [select_lib].
    destruct (is_dynamic_lib x) eqn:Hx.
    + intros [= <-]. exists [], rest. by repeat split.
    + intros Hs. destruct (IH Hs) as (pre & post & -> & Hn & Hpre).
      exists (x :: pre), post. repeat split; [done|].
      intros y [<-|Hy]; [done | by apply Hpre].
  - intros (pre & post & -> & Hn & Hpre).
    induction pre as [|x pre IH]; cbn [app select_lib].
    + by rewrite Hn.
    + rewrite (Hpre x) by (by left). apply IH. intros y Hy. apply Hpre. by right.
Qed.

(** X20: the library the hook picks from zig-out/lib is the first entry, in
    the order iterdir yields them, whose name starts with "libaegis" and
    whose suffix is .so, .dylib or .dll; without such an entry nothing is
    picked. *)
Theorem select_lib_first (names : list string) :
  (forall name,
      select_lib names = Some name <->
      exists pre post,
        names = pre ++ name :: post /\
        (String.prefix "libaegis" name = true /\
         (path_suffix name = ".so" \/ path_suffix name = ".dylib" \/
          path_suffix name = ".dll")) /\
        (forall x, In x pre -> is_dynamic_lib x = false)) /\
  (select_lib names = None <-> forall x, In x names -> is_dynamic_lib x = false).
Proof.
  assert (forall name,
             is_dynamic_lib name = true <->
             String.prefix "libaegis" name = true /\
             (path_suffix name = ".so" \/ path_suffix name = ".dylib" \/
              path_suffix name = ".dll")) as Hdyn.
  { intros name. unfold is_dynamic_lib.
    rewrite andb_true_iff, !orb_true_iff, !bool_decide_eq_true. tauto. }
  split.
  - intros name. rewrite select_lib_split. by setoid_rewrite Hdyn.
  - induction names as [|x rest IH]; cbn [select_lib].
    + split; [by intros _ x [] | done].
    + destruct (is_dynamic_lib x) eqn:Hx.
      * split; [discriminate|]. intros H. rewrite (H x) in Hx; [done | by left].
      * rewrite IH. split.
        -- intros H y [<-|Hy]; [done | by apply H].
        -- intros H y Hy. apply H. by right.
Qed.

Lemma select_lib_first_witness :
  select_lib ["libaegis.a"; "libaegis.so.0"; "aegis.dll"; "libaegis.dylib"; "libaegis.so"]
  = Some "libaegis.dylib".
Proof.
  apply (proj1 (select_lib_first _)).
  exists ["libaegis.a"; "libaegis.so.0"; "aegis.dll"], ["libaegis.so"].
  split; [reflexivity|]. split; [split; [reflexivity | right; left; reflexivity]|].
  intros x [<- | [<- | [<- | []]]]; reflexivity.
Defined.

(** X21: the name the hook picks always starts with "libaegis", so when
    pyaegis/_loader.py asks for aegis.dll (os.name is "nt" and sys.platform
    is not "darwin") the picked file never has the name the loader looks
    for under build/. *)
Theorem select_lib_never_windows_name
    (names : list string) (name : string) (lenv : environ) :
  select_lib names = Some name ->
  os_name lenv = "nt" ->
  sys_platform lenv <> "darwin" ->
  Pyaegis._platform_lib_name lenv = "aegis.dll" /\
  name <> Pyaegis._platform_lib_name lenv.
Proof.
  intros Hsel Hnt Hnd. unfold Pyaegis._platform_lib_name.
  destruct (decide (sys_platform lenv = "darwin")); [done|].
  destruct (decide (os_name lenv = "nt")); [|done].
  split; [done|]. intros ->.
  apply select_lib_split in Hsel as (_ & _ & _ & Hdyn & _). discriminate Hdyn.
Qed.

Lemma select_lib_never_windows_name_witness :
  "libaegis.dll" <> Pyaegis._platform_lib_name
                      (MkEnviron (fun _ => None) (fun _ => true) (fun _ => Ok true)
                         "win32" "nt" (Ok "C:/repo")
                         "C:/pkg" slash_join slash_join None true (fun _ => None)
                         (fun _ => None) (Ok 0) (fun _ _ => (0, None))
                         (fun _ => Raise CDefError) (fun _ => false)
                         (fun _ => None)).
Proof.
  eapply (select_lib_never_windows_name ["aegis.dll"; "aegis.lib"; "libaegis.dll"]).
  - reflexivity.
  - reflexivity.
  - discriminate.
Defined.

Ltac hook_step :=
  match goal with
  | |- context [if negb ?b then _ else _] => destruct b eqn:?; cbn [negb]
  | |- context [match build_zig_text ?e with _ => _ end] =>
      destruct (build_zig_text e) eqn:?
  | |- context [match symlink_all ?e ?a ?b ?c ?s with _ => _ end] =>
      destruct (symlink_all e a b c s) as [[[]|?] ?] eqn:?
  | |- context [match zig_build ?e with _ => _ end] => destruct (zig_build e) eqn:?
  | |- context [match lib_listing ?e with _ => _ end] => destruct (lib_listing e) eqn:?
  | |- context [match select_lib ?n with _ => _ end] => destruct (select_lib n) eqn:?
  | |- context [match force_include ?a ?b ?c with _ => _ end] =>
      destruct (force_include a b c) eqn:?
  end.

Ltac hook_frame :=
  match goal with
  | H : symlink_all _ _ _ _ _ = _ |- _ =>
      apply symlink_all_frame in H as (? & ? & ? & ?)
  end.

(** X22: the hook does nothing at all for a target other than "wheel", and
    whenever it raises, [build_data] is as it was given: its
    force_include entry is written only by a run that succeeds. *)
Theorem initialize_failure_keeps_build_data (env : hook_env) (st : hook_state) :
  (target_name env <> "wheel" -> initialize env st = (Done tt, st)) /\
  (forall e st', initialize env st = (Fail e, st') -> build_data st' = build_data st).
Proof.
  split.
  - intros Ht. unfold initialize. by rewrite bool_decide_false.
  - intros e st'. unfold initialize. cbv zeta.
    repeat hook_step; intros [= <- <-] || discriminate; try done;
      try hook_frame; cbn [build_data add_event add_written add_created] in *;
      congruence.
Qed.

Lemma initialize_failure_keeps_build_data_witness :
  initialize
    (MkHookEnv "sdist" true "/src" "/work" slash_join (fun _ => true) None
       (fun s _ _ => s) true true true ZigOk None (fun _ => true))
    fresh_hook_state
  = (Done tt, fresh_hook_state).
Proof.
  apply (proj1 (initialize_failure_keeps_build_data _ fresh_hook_state)).
  discriminate.
Defined.

Lemma force_include_done (src dest : string) (bd0 bd : gmap string pyval) :
  force_include src dest bd0 = Done bd ->
  exists d,
    (bd0 !! "force_include" = Some (PyDict d) \/
     bd0 !! "force_include" = None /\ d = ∅) /\
    bd = <["force_include" := PyDict (<[src := dest]> d)]> bd0.
Proof.
  unfold force_include. destruct (bd0 !! "force_include") as [[d|]|] eqn:Hfi.
  - rewrite Hfi. intros [= <-]. exists d. split; [by left | done].
  - rewrite Hfi. discriminate.
  - rewrite lookup_insert_eq. intros [= <-]. exists ∅.
    split; [by right|]. by rewrite insert_insert_eq.
Qed.

(** X23: a successful run on the wheel target adds one entry to
    build_data["force_include"], creating the dict when the key is
    missing: the picked library under zig-out/lib mapped to
    build/<its name>.  The other entries of force_include and the other
    keys of build_data are kept. *)
Theorem initialize_force_include (env : hook_env) (st st' : hook_state) :
  target_name env = "wheel" ->
  initialize env st = (Done tt, st') ->
  let lib_dir :=
    pjoin env (pjoin env (pjoin env (hook_cwd env) "libaegis-build") "zig-out") "lib" in
  exists names name d d',
    lib_listing env = Some names /\
    select_lib names = Some name /\
    lib_exists env (pjoin env lib_dir name) = true /\
    (build_data st !! "force_include" = Some (PyDict d) \/
     build_data st !! "force_include" = None /\ d = ∅) /\
    build_data st' !! "force_include" = Some (PyDict d') /\
    d' !! pjoin env lib_dir name = Some (pjoin env "build" name) /\
    (forall k, k <> pjoin env lib_dir name -> d' !! k = d !! k) /\
    (forall k, k <> "force_include" -> build_data st' !! k = build_data st !! k).
Proof.
  intros Ht Hrun lib_dir.
  destruct (initialize_done_inv env st st' Ht Hrun)
    as (text & names & name & st2 & bd & _ & _ & _ & _ & _ & Hsym & _ & Hlist & Hsel
        & Hex & Hfi & Hbd & _).
  apply symlink_all_frame in Hsym as (Hb2 & _).
  cbn [build_data add_written add_created] in Hb2. rewrite Hb2 in Hfi.
  apply force_include_done in Hfi as (d & Hold & ->).
  exists names, name, d, (<[pjoin env lib_dir name := pjoin env "build" name]> d).
  rewrite Hbd. repeat split; try done.
  - apply lookup_insert_eq.
  - apply lookup_insert_eq.
  - intros k Hk. by apply lookup_insert_ne.
  - intros k Hk. by apply lookup_insert_ne.
Qed.

Lemma initialize_force_include_witness :
  exists st' d',
    initialize sample_hook_env fresh_hook_state = (Done tt, st') /\
    build_data st' !! "force_include" = Some (PyDict d') /\
    d' !! "/work/libaegis-build/zig-out/lib/libaegis.so" = Some "build/libaegis.so" /\
    d' !! "LICENSE" = Some "LICENSE".
Proof.
  eexists _. 
  assert (initialize sample_hook_env fresh_hook_state
          = (Done tt, snd (initialize sample_hook_env fresh_hook_state))) as Hrun
    by (vm_compute; reflexivity).
  destruct (initialize_force_include sample_hook_env fresh_hook_state _ eq_refl Hrun)
    as (names & name & d & d' & Hlist & Hsel & _ & Hold & Hnew & Hsrc & Hkeep & _).
  injection Hlist as <-. injection Hsel as <-.
  exists d'. split; [exact Hrun|]. split; [exact Hnew|]. split; [exact Hsrc|].
  rewrite Hkeep by discriminate.
  destruct Hold as [Hold | [Hold _]]; [|discriminate Hold].
  vm_compute in Hold. injection Hold as <-. reflexivity.
Defined.

(** X24: the hook starts zig at most once, and only for the wheel target,
    with zig on PATH and libaegis/build.zig present, after the build
    directory and both links have been made; it starts it in the build
    directory.  Whenever it raises before that point nothing has been
    logged. *)
Theorem initialize_runs_zig (env : hook_env) (st : hook_state) :
  let build_dir := pjoin env (hook_cwd env) "libaegis-build" in
  let st' := snd (initialize env st) in
  exists new,
    hook_log st' = hook_log st ++ new /\
    (new = [] \/
     exists rest,
       new = DisplayInfo "[aegis] Building libaegis dynamic library with Zig..."
               :: RunZig build_dir :: rest /\
       (forall d, ~ In (RunZig d) rest) /\
       target_name env = "wheel" /\
       which_zig env = true /\
       exists_now env st (pjoin env (pjoin env (hook_root env) "libaegis") "build.zig")
       = true /\
       build_dir ∈ created st' /\
       pjoin env build_dir "build.zig.zon" ∈ created st' /\
       pjoin env build_dir "src" ∈ created st').
Proof.
  cbv zeta. unfold initialize. cbv zeta.
  destruct (bool_decide (target_name env = "wheel")) eqn:Ht; cbn [negb];
    [apply bool_decide_eq_true in Ht | exists []; split; [by rewrite app_nil_r | by left]].
  repeat hook_step; cbn [snd];
    try (exists []; split; [try hook_frame; cbn in *; rewrite app_nil_r; congruence
                           | by left]).
  all: hook_frame; cbn [build_data hook_log created add_event add_written add_created
                          set_build_data] in *.
  all: eexists; split;
    [ rewrite <- ?app_assoc; cbn [app]; match goal with H : hook_log _ = _ |- _ => rewrite H end;
      reflexivity |].
  all: right; eexists; split; [reflexivity|].
  all: split; [intros d Hd; cbn in Hd; intuition discriminate|].
  all: repeat split; try done.
  all: first
    [ match goal with
      | Hin : forall u : unit, _ |- _ => apply (Hin tt eq_refl); cbn; tauto
      end
    | match goal with
      | Hc : _ ⊆ created _ |- _ =>
          apply Hc, elem_of_union_r, elem_of_union_l; by apply elem_of_singleton
      end ].
Qed.

Lemma exists_now_mono (env : hook_env) (st st' : hook_state) (p : string) :
  created st ⊆ created st' ->
  exists_now env st p = true -> exists_now env st' p = true.
Proof.
  unfold exists_now. intros Hc. rewrite !orb_true_iff, !bool_decide_eq_true.
  intros [Hp | Hin]; [by left | right; by apply Hc].
Qed.

(** X25: after a successful wheel build, running the hook again from the
    same working directory raises FileExistsError: mkdir tolerates the
    build directory being there, but the link build.zig.zon made by the
    first run is still in place when symlink_to is called again.  zig is
    not started and build_data is left as the first run made it. *)
Theorem initialize_twice (env : hook_env) (st st1 : hook_state) :
  target_name env = "wheel" ->
  initialize env st = (Done tt, st1) ->
  fst (initialize env st1) = Fail FileExistsError /\
  build_data (snd (initialize env st1)) = build_data st1 /\
  hook_log (snd (initialize env st1)) = hook_log st1.
Proof.
  intros Ht Hrun.
  destruct (initialize_done_inv env st st1 Ht Hrun)
    as (text & names & name & st2 & bd & Hzig & Hbz & Hmk & Htext & Hwr & Hsym & _ & _
        & _ & _ & _ & _ & Hcr & _).
  apply symlink_all_frame in Hsym as (_ & _ & Hsub & Hlinks).
  cbn [created add_written add_created] in Hsub.
  assert (created st ⊆ created st1) as Hmono.
  { rewrite Hcr. etransitivity; [|exact Hsub].
    etransitivity; [|apply union_subseteq_r]. apply union_subseteq_r. }
  assert (pjoin env (pjoin env (hook_cwd env) "libaegis-build") "build.zig.zon"
          ∈ created st1) as Hlink.
  { rewrite Hcr. apply (Hlinks tt eq_refl). by left. }
  assert (initialize env st1
          = (Fail FileExistsError,
             add_written
               (pjoin env (pjoin env (hook_cwd env) "libaegis-build") "build.zig")
               (str_replace env text ".linkage = .static," ".linkage = .dynamic,")
               (add_created (pjoin env (hook_cwd env) "libaegis-build") st1))) as ->.
  { unfold initialize. rewrite bool_decide_true by done. cbn [negb]. rewrite Hzig.
    cbn [negb]. cbv zeta.
    rewrite (exists_now_mono env st st1 _ Hmono Hbz). cbn [negb].
    rewrite Hmk, Htext, Hwr. cbn [negb symlink_all].
    unfold symlink_to at 1.
    match goal with
    | |- context [exists_now env ?s ?p] =>
        assert (exists_now env s p = true) as ->
    end; [|reflexivity].
    unfold exists_now. rewrite orb_true_iff, bool_decide_eq_true. right.
    cbn [created add_written add_created].
    by apply elem_of_union_r, elem_of_union_r. }
  repeat split; reflexivity.
Qed.

Lemma initialize_twice_witness :
  fst (initialize sample_hook_env (snd (initialize sample_hook_env fresh_hook_state)))
  = Fail FileExistsError.
Proof.
  apply (initialize_twice sample_hook_env fresh_hook_state); [reflexivity|].
  vm_compute. reflexivity.
Defined.

(** ** Distinct nonces stay distinct *)

(** X26: two byte buffers of the same length that nonce_increment leaves
    with the same contents had the same contents before: incrementing
    never makes two different nonces collide. *)
Theorem nonce_increment_injective (b1 b2 b1' b2' : Buffer) :
  len b1 = len b2 ->
  nonce_increment b1 = Ok b1' ->
  nonce_increment b2 = Ok b2' ->
  contents b1' = contents b2' ->
  contents b1 = contents b2.
Proof.
  unfold len. intros Hlen H1 H2 Heq.
  apply nonce_increment_ok_inv in H1 as [Hc1 _].
  apply nonce_increment_ok_inv in H2 as [Hc2 _].
  rewrite Hc1, Hc2 in Heq. apply (f_equal le_value) in Heq.
  rewrite !le_successor_value, Hlen in Heq.
  apply le_value_inj; [done|].
  pose proof (le_value_range (contents b1)) as Hv1.
  pose proof (le_value_range (contents b2)) as Hv2.
  rewrite Hlen in Hv1. set (M := 256 ^ Z.of_nat (length (contents b2))) in *.
  assert ((le_value (contents b1) - le_value (contents b2)) mod M = 0) as Hd.
  { replace (le_value (contents b1) - le_value (contents b2))
      with ((le_value (contents b1) + 1) - (le_value (contents b2) + 1)) by lia.
    by rewrite Zminus_mod, Heq, Z.sub_diag. }
  destruct (Z.le_gt_cases (le_value (contents b2)) (le_value (contents b1))).
  - rewrite Z.mod_small in Hd by lia. lia.
  - assert ((le_value (contents b2) - le_value (contents b1)) mod M = 0) as Hd'.
    { replace (le_value (contents b2) - le_value (contents b1))
        with ((le_value (contents b2) + 1) - (le_value (contents b1) + 1)) by lia.
      by rewrite Zminus_mod, Heq, Z.sub_diag. }
    rewrite Z.mod_small in Hd' by lia. lia.
Qed.

Lemma nonce_increment_injective_witness :
  contents (bytearray [xff; x00]) = contents (MkBuffer [xff; x00] false).
Proof.
  apply (nonce_increment_injective (bytearray [xff; x00]) (MkBuffer [xff; x00] false)
           (bytearray [x00; x01]) (bytearray [x00; x01]));
    reflexivity.
Defined.
